(** * CLE loader ([cle/cle.py], class [Ld]): a shallow embedding

  The loader composes an address space out of a main binary and its
  shared-library dependencies.  This development embeds the class [Ld]
  as pure functions over an explicit loader state, with Python
  exceptions as an error result and the calls to the outside world
  (the filesystem, the backends) taken from a record [World]. *)

From stdpp Require Import gmap strings list fin_maps.
From Stdlib Require Import ZArith Ascii String Lia.

Local Open Scope string_scope.
Local Open Scope list_scope.
Local Open Scope Z_scope.

(** ** Python [str] operations used by the loader *)

Module PyStr.

(** [c in chars] for a single character. *)
Fixpoint char_in (c : ascii) (chars : string) : bool :=
  match chars with
  | EmptyString => false
  | String d chars' => if Ascii.eqb c d then true else char_in c chars'
  end.

(** [s.lstrip(chars)] *)
Fixpoint lstrip (chars s : string) : string :=
  match s with
  | EmptyString => EmptyString
  | String c s' => if char_in c chars then lstrip chars s' else s
  end.

(** [s.rstrip(chars)] *)
Fixpoint rstrip (chars s : string) : string :=
  match s with
  | EmptyString => EmptyString
  | String c s' =>
      match rstrip chars s' with
      | EmptyString => if char_in c chars then EmptyString else String c EmptyString
      | r => String c r
      end
  end.

(** [s.strip(chars)]: both the leading and the trailing characters of
    [chars] go. *)
Definition strip (chars s : string) : string := rstrip chars (lstrip chars s).

(** Every character of [s] is one of [chars]. *)
Fixpoint all_in (chars s : string) : bool :=
  match s with
  | EmptyString => true
  | String c s' => char_in c chars && all_in chars s'
  end.

(** [s.startswith(c)] and [s.endswith(c)] for one character. *)
Definition startswith (s : string) (c : ascii) : bool :=
  match s with
  | EmptyString => false
  | String d _ => Ascii.eqb d c
  end.

Fixpoint endswith (s : string) (c : ascii) : bool :=
  match s with
  | EmptyString => false
  | String d EmptyString => Ascii.eqb d c
  | String _ s' => endswith s' c
  end.

(** ['/' in path] *)
Definition has_sep (path : string) : bool := char_in "/"%char path.

(** [os.path.basename(p)]: [p[p.rfind('/') + 1:]]. *)
Fixpoint basename (p : string) : string :=
  match p with
  | EmptyString => EmptyString
  | String c p' =>
      if has_sep p' then basename p'
      else if Ascii.eqb c "/"%char then p' else p
  end.

(** [p[:p.rfind('/') + 1]] *)
Fixpoint head_of (p : string) : string :=
  match p with
  | EmptyString => EmptyString
  | String c p' =>
      if has_sep p' then String c (head_of p')
      else if Ascii.eqb c "/"%char then "/" else EmptyString
  end.

(** [os.path.dirname(p)]: the head, without its trailing slashes unless
    it consists of slashes only. *)
Definition dirname (p : string) : string :=
  let head := head_of p in
  if negb (String.eqb head "") && negb (all_in "/" head)
  then rstrip "/" head else head.

(** [os.path.join(a, b)] *)
Definition join (a b : string) : string :=
  if startswith b "/"%char then b
  else if String.eqb a "" || endswith a "/"%char then a +:+ b
  else a +:+ "/" +:+ b.

End PyStr.

(** The character class of the version fuzzing, ['.0123456789']. *)
Definition version_chars : string := ".0123456789".

(** [name.strip('.0123456789')], the one spelling of the fuzzy stripping
  in [_load_dependencies], [add_object] and [_resolve_path]. *)
Definition fuzzy_strip (name : string) : string := PyStr.strip version_chars name.


(** ** Exceptions and results *)

Inductive Exc : Type :=
| CLException (msg : string)
| AttributeError
| TypeError
| ValueError
| ZeroDivisionError
| Overlap
| NotFound
| BackendError (msg : string).

(** The outcome of a call: a value, or a raised exception. *)
Inductive result (A : Type) : Type :=
| OK (a : A)
| Raise (e : Exc).

Arguments OK {A} a.
Arguments Raise {A} e.

#[global] Instance result_ret : MRet result := fun A a => OK a.

#[global] Instance result_bind : MBind result :=
  fun A B f m => match m with OK a => f a | Raise e => Raise e end.

(** [for x in xs: body], where the body may raise. *)
Fixpoint for_each {A S : Type} (body : S -> A -> result S) (xs : list A) (s : S) : result S :=
  match xs with
  | [] => OK s
  | x :: xs' => s' ← body s x; for_each body xs' s'
  end.

(** [max(xs)]: raises [ValueError] on an empty sequence. *)
Definition py_max (xs : list Z) : result Z :=
  match xs with
  | [] => Raise ValueError
  | x :: xs' => OK (fold_left Z.max xs' x)
  end.

(** ** Images *)

(** The backend classes of the [import] block, and their base [MetaELF]. *)
Inductive Class : Type := ELF | MetaELF | CLEExtractor | Pe | IdaBin | Blob.

#[global] Instance Class_eq_dec : EqDecision Class.
Proof. solve_decision. Defined.

(** An architecture descriptor, compared with [==]. *)
Definition Arch : Type := string.

(** A relocation entry: opaque to the loader, which only calls
    [reloc.relocate(self.all_objects)]. *)
Record Reloc : Type := {
  reloc_symbol : string;
  reloc_slot : Z;
  reloc_kind : nat;
  reloc_addend : Z
}.

(** Modelled from the spec: the image-local memory of an image (class
    [Clemory] of [cle/memory.py] is not among the sources).  A sparse
    byte map keyed by image-local offsets, with a size; the loader never
    looks at the bytes, so only the offsets are kept. *)
Record Mem : Type := {
  mem_size : Z;
  mem_offsets : gset Z
}.

(** [off in memory] *)
Definition mem_contains (m : Mem) (off : Z) : bool := bool_decide (off ∈ mem_offsets m).

(** The per-image options dictionary; the loader reads ['backend'] and
    ['custom_base_addr'] with [dict.get].  For each of the two keys the
    outer [None] is a dictionary without the key, [Some None] the key
    holding Python's [None], and [Some (Some v)] the key holding [v]. *)
Record Options : Type := {
  opt_backend : option (option string);
  opt_custom_base_addr : option (option Z)
}.

Definition no_options : Options := {| opt_backend := None; opt_custom_base_addr := None |}.

(** The surface of a backend object that [Ld] touches. *)
Record Obj : Type := {
  cls : Class;
  binary : string;
  arch : Arch;
  provides : option string;
  deps : list string;
  exports : gmap string Z;
  imports : list (string * Z);
  relocs : list Reloc;
  obj_memory : Mem;
  get_min_addr : Z;
  get_max_addr : Z;
  rebase_addr : Z;
  tls_module_id : option nat
}.

Definition set_cls (o : Obj) (c : Class) : Obj :=
  {| cls := c; binary := binary o; arch := arch o; provides := provides o;
     deps := deps o; exports := exports o; imports := imports o; relocs := relocs o;
     obj_memory := obj_memory o; get_min_addr := get_min_addr o;
     get_max_addr := get_max_addr o; rebase_addr := rebase_addr o;
     tls_module_id := tls_module_id o |}.

(** [obj.rebase_addr = base_addr] *)
Definition set_rebase_addr (o : Obj) (base_addr : Z) : Obj :=
  {| cls := cls o; binary := binary o; arch := arch o; provides := provides o;
     deps := deps o; exports := exports o; imports := imports o; relocs := relocs o;
     obj_memory := obj_memory o; get_min_addr := get_min_addr o;
     get_max_addr := get_max_addr o; rebase_addr := base_addr;
     tls_module_id := tls_module_id o |}.

(** [obj.tls_module_id = i] *)
Definition set_tls_module_id (o : Obj) (i : nat) : Obj :=
  {| cls := cls o; binary := binary o; arch := arch o; provides := provides o;
     deps := deps o; exports := exports o; imports := imports o; relocs := relocs o;
     obj_memory := obj_memory o; get_min_addr := get_min_addr o;
     get_max_addr := get_max_addr o; rebase_addr := rebase_addr o;
     tls_module_id := Some i |}.

(** ** The outside world *)

(** What the loader calls and does not define: the filesystem, [archinfo]
    and the backend classes. *)
Record World : Type := {
  (** [arch_from_binary(path)]; [None] stands for [ArchError]. *)
  arch_from_binary : string -> option Arch;
  (** [os.listdir(dir)]; [None] stands for [OSError]. *)
  listdir : string -> option (list string);
  (** [os.path.realpath(path)] *)
  realpath : string -> string;
  (** [arch.library_search_path()] *)
  library_search_path : Arch -> list string;
  (** The constructor of a backend class, [C(path, **options)]. *)
  backend_new : Class -> string -> Options -> result Obj;
  (** [IdaBin.rebase(base_addr)]: the object as the call leaves it. *)
  ida_rebase : Obj -> Z -> result Obj;
  (** [reloc.relocate(all_objects)]: it writes bytes of the owning image,
      which are not part of the state here, and may raise. *)
  relocate : Reloc -> list Obj -> result unit;
  (** Which backend classes derive from [MetaELF]. *)
  metaelf_subclass : Class -> bool
}.

(** ** A small universe of Python values, for [isinstance] and attribute
    access on values that are not images *)

Inductive PyVal : Type :=
| PyNone
| PyString (s : string)
| PyClass (c : Class)
| PyObj (o : Obj).

Definition issubclass (W : World) (c d : Class) : bool :=
  bool_decide (c = d) || (bool_decide (d = MetaELF) && metaelf_subclass W c).

(** [isinstance(x, c)]: the second argument has to be a class. *)
Definition isinstance (W : World) (x c : PyVal) : result bool :=
  match c with
  | PyClass d =>
      match x with
      | PyObj o => OK (issubclass W (cls o) d)
      | _ => OK false
      end
  | _ => Raise TypeError
  end.

(** [isinstance(obj, C)] for an image and a class: never raises. *)
Definition obj_isinstance (W : World) (o : Obj) (c : Class) : bool := issubclass W (cls o) c.

(** [v.exports]: only images have the attribute. *)
Definition getattr_exports (v : PyVal) : result (gmap string Z) :=
  match v with
  | PyObj o => OK (exports o)
  | _ => Raise AttributeError
  end.

Definition py_of_key (k : option string) : PyVal :=
  match k with
  | Some s => PyString s
  | None => PyNone
  end.

Definition py_of_obj (o : option Obj) : PyVal :=
  match o with
  | Some o => PyObj o
  | None => PyNone
  end.

(** ** The memory map *)

(** Modelled from the spec: the loader's memory map (class [Clemory] of
    [cle/memory.py] is not among the sources): a collection of backers
    [(absolute base, image-local memory)]. *)
Record Clemory : Type := {
  backers : list (Z * Mem)
}.

(** [[b1, b1 + s1)] and [[b2, b2 + s2)] intersect. *)
Definition ranges_intersect (b1 s1 b2 s2 : Z) : bool :=
  Z.max b1 b2 <? Z.min (b1 + s1) (b2 + s2).

(** Modelled from the spec: [add_backer(base, image_memory)] fails with
    Overlap if [[base, base + image_memory.size)] intersects an existing
    backer. *)
Definition add_backer (m : Clemory) (base : Z) (data : Mem) : result Clemory :=
  if existsb (fun b => ranges_intersect base (mem_size data) b.1 (mem_size b.2)) (backers m)
  then Raise Overlap
  else OK {| backers := backers m ++ [(base, data)] |}.

(** Modelled from the spec: [update_backer(base, image_memory)] replaces
    the backer registered at exactly [base]; fails with NotFound if none. *)
Definition update_backer (m : Clemory) (base : Z) (data : Mem) : result Clemory :=
  if existsb (fun b => b.1 =? base) (backers m)
  then OK {| backers := map (fun b => if b.1 =? base then (base, data) else b) (backers m) |}
  else Raise NotFound.

(** ** The loader *)

(** The arguments of [Ld.__init__]. *)
Record Config : Type := {
  main_binary : string;
  auto_load_libs : bool;
  force_load_libs : option (list string);
  skip_libs : option (list string);
  main_opts : option Options;
  lib_opts : option (gmap string Options);
  custom_ld_path : option (list string);
  ignore_import_version_numbers : bool;
  rebase_granularity : Z;
  except_missing_libs : bool
}.

(** A call of the loader into the filesystem. *)
Inductive FsEvent : Type :=
| EvCheckLib (sopath : string)
| EvListdir (libdir : string).

(** The attributes of [Ld] that change during loading.  Images live in
    [all_objects]; [main_bin] and [shared_objects] refer to them by
    position, as the Python attributes refer to the same objects.
    [fs_trace] and [ida_updates] record the calls made to the filesystem
    and to [IdaBin.update_addrs] (image, slot, new address). *)
Record Ld : Type := {
  _unsatisfied_deps : list string;
  _satisfied_deps : gset string;
  memory : option Clemory;
  main_bin : option nat;
  shared_objects : gmap (option string) nat;
  all_objects : list Obj;
  requested_objects : gset string;
  fs_trace : list FsEvent;
  ida_updates : list (nat * Z * Z)
}.

Definition set_unsatisfied_deps (self : Ld) (q : list string) : Ld :=
  {| _unsatisfied_deps := q; _satisfied_deps := _satisfied_deps self;
     memory := memory self; main_bin := main_bin self;
     shared_objects := shared_objects self; all_objects := all_objects self;
     requested_objects := requested_objects self; fs_trace := fs_trace self;
     ida_updates := ida_updates self |}.

Definition set_satisfied_deps (self : Ld) (s : gset string) : Ld :=
  {| _unsatisfied_deps := _unsatisfied_deps self; _satisfied_deps := s;
     memory := memory self; main_bin := main_bin self;
     shared_objects := shared_objects self; all_objects := all_objects self;
     requested_objects := requested_objects self; fs_trace := fs_trace self;
     ida_updates := ida_updates self |}.

Definition set_memory (self : Ld) (m : option Clemory) : Ld :=
  {| _unsatisfied_deps := _unsatisfied_deps self; _satisfied_deps := _satisfied_deps self;
     memory := m; main_bin := main_bin self;
     shared_objects := shared_objects self; all_objects := all_objects self;
     requested_objects := requested_objects self; fs_trace := fs_trace self;
     ida_updates := ida_updates self |}.

Definition set_main_bin (self : Ld) (i : option nat) : Ld :=
  {| _unsatisfied_deps := _unsatisfied_deps self; _satisfied_deps := _satisfied_deps self;
     memory := memory self; main_bin := i;
     shared_objects := shared_objects self; all_objects := all_objects self;
     requested_objects := requested_objects self; fs_trace := fs_trace self;
     ida_updates := ida_updates self |}.

Definition set_shared_objects (self : Ld) (d : gmap (option string) nat) : Ld :=
  {| _unsatisfied_deps := _unsatisfied_deps self; _satisfied_deps := _satisfied_deps self;
     memory := memory self; main_bin := main_bin self;
     shared_objects := d; all_objects := all_objects self;
     requested_objects := requested_objects self; fs_trace := fs_trace self;
     ida_updates := ida_updates self |}.

Definition set_all_objects (self : Ld) (l : list Obj) : Ld :=
  {| _unsatisfied_deps := _unsatisfied_deps self; _satisfied_deps := _satisfied_deps self;
     memory := memory self; main_bin := main_bin self;
     shared_objects := shared_objects self; all_objects := l;
     requested_objects := requested_objects self; fs_trace := fs_trace self;
     ida_updates := ida_updates self |}.

Definition set_requested_objects (self : Ld) (s : gset string) : Ld :=
  {| _unsatisfied_deps := _unsatisfied_deps self; _satisfied_deps := _satisfied_deps self;
     memory := memory self; main_bin := main_bin self;
     shared_objects := shared_objects self; all_objects := all_objects self;
     requested_objects := s; fs_trace := fs_trace self;
     ida_updates := ida_updates self |}.

Definition set_fs_trace (self : Ld) (t : list FsEvent) : Ld :=
  {| _unsatisfied_deps := _unsatisfied_deps self; _satisfied_deps := _satisfied_deps self;
     memory := memory self; main_bin := main_bin self;
     shared_objects := shared_objects self; all_objects := all_objects self;
     requested_objects := requested_objects self; fs_trace := t;
     ida_updates := ida_updates self |}.

Definition set_ida_updates (self : Ld) (u : list (nat * Z * Z)) : Ld :=
  {| _unsatisfied_deps := _unsatisfied_deps self; _satisfied_deps := _satisfied_deps self;
     memory := memory self; main_bin := main_bin self;
     shared_objects := shared_objects self; all_objects := all_objects self;
     requested_objects := requested_objects self; fs_trace := fs_trace self;
     ida_updates := u |}.

(** [self.main_bin], the image itself. *)
Definition the_main_bin (self : Ld) : result Obj :=
  match main_bin self with
  | Some i =>
      match all_objects self !! i with
      | Some o => OK o
      | None => Raise AttributeError
      end
  | None => Raise AttributeError
  end.

Section Loader.

Variable W : World.
Variable cfg : Config.

(** [self._main_binary_path = os.path.realpath(str(main_binary))] *)
Definition _main_binary_path : string := realpath W (main_binary cfg).

Definition _main_opts : Options := default no_options (main_opts cfg).

Definition _lib_opts : gmap string Options := default ∅ (lib_opts cfg).

Definition _custom_ld_path : list string := default [] (custom_ld_path cfg).

(** The state in which [__init__] starts the three loading phases. *)
Definition initial : Ld :=
  {| _unsatisfied_deps := default [] (force_load_libs cfg);
     _satisfied_deps := list_to_set (default [] (skip_libs cfg));
     memory := None; main_bin := None; shared_objects := ∅;
     all_objects := []; requested_objects := ∅;
     fs_trace := []; ida_updates := [] |}.

(** [load_object(path, options)].  The backend is
    [options.get('backend', 'elf')]; a stored [None] equals none of the
    names. *)
Definition load_object (path : string) (options : Options) : result Obj :=
  match default (Some "elf") (opt_backend options) with
  | Some backend =>
      if String.eqb backend "elf" then
        o ← backend_new W ELF path options; OK (set_cls o ELF)
      else if String.eqb backend "cleextract" then
        o ← backend_new W CLEExtractor path options; OK (set_cls o CLEExtractor)
      else if String.eqb backend "ida" then
        o ← backend_new W IdaBin path options; OK (set_cls o IdaBin)
      else if String.eqb backend "pe" then
        o ← backend_new W Pe path options; OK (set_cls o Pe)
      else if String.eqb backend "blob" then
        o ← backend_new W Blob path options; OK (set_cls o Blob)
      else Raise (CLException ("Invalid backend: " +:+ backend))
  | None => Raise (CLException "Invalid backend: None")
  end.

(** [max_addr()] *)
Definition max_addr (self : Ld) : result Z :=
  py_max (map (fun x => get_max_addr x + rebase_addr x) (all_objects self)).

(** [min_addr()]: [min] is [max] on the negated values. *)
Definition min_addr (self : Ld) : result Z :=
  m ← py_max (map (fun x => - (get_min_addr x + rebase_addr x)) (all_objects self));
  OK (- m).

(** [_get_safe_rebase_addr()] *)
Definition _get_safe_rebase_addr (self : Ld) : result Z :=
  let granularity := rebase_granularity cfg in
  m ← max_addr self;
  if granularity =? 0 then Raise ZeroDivisionError
  else OK (m + (granularity - m mod granularity)).

(** [add_object(obj, base_addr)].  The image is appended to
    [all_objects] before a base is chosen; the later writes to it go to
    that entry. *)
Definition add_object (self : Ld) (obj : Obj) (base_addr : option Z) : result Ld :=
  let self :=
    if auto_load_libs cfg
    then set_unsatisfied_deps self (_unsatisfied_deps self ++ deps obj)
    else self in
  let self := set_requested_objects self (requested_objects self ∪ list_to_set (deps obj)) in
  let self :=
    match provides obj with
    | Some p =>
        let self := set_satisfied_deps self (_satisfied_deps self ∪ {[ p ]}) in
        if ignore_import_version_numbers cfg
        then set_satisfied_deps self (_satisfied_deps self ∪ {[ fuzzy_strip p ]})
        else self
    | None => self
    end in
  let idx := List.length (all_objects self) in
  let self := set_all_objects self (all_objects self ++ [obj]) in
  base_addr ← match base_addr with
              | Some b => OK b
              | None => _get_safe_rebase_addr self
              end;
  if obj_isinstance W obj IdaBin then
    obj' ← ida_rebase W obj base_addr;
    OK (set_all_objects self (<[idx := obj']> (all_objects self)))
  else
    match memory self with
    | None => Raise AttributeError
    | Some m =>
        m' ← add_backer m base_addr (obj_memory obj);
        let self := set_memory self (Some m') in
        OK (set_all_objects self (<[idx := set_rebase_addr obj base_addr]> (all_objects self)))
    end.

(** [_check_lib(sopath)] *)
Definition _check_lib (main_arch : Arch) (sopath : string) : bool :=
  match arch_from_binary W sopath with
  | Some a => bool_decide (main_arch = a)
  | None => false
  end.

(** The inner loop of [_resolve_path], [for libname in listing]: the
    probes made and the path returned, if any. *)
Fixpoint scan_listing (main_arch : Arch) (libdir path : string) (listing : list string)
  : list FsEvent * option string :=
  match listing with
  | [] => ([], None)
  | libname :: listing' =>
      if String.eqb (fuzzy_strip libname) (fuzzy_strip path) then
        let cand := PyStr.join libdir libname in
        if _check_lib main_arch cand
        then ([EvCheckLib cand], Some (realpath W cand))
        else
          let r := scan_listing main_arch libdir path listing' in
          (EvCheckLib cand :: r.1, r.2)
      else scan_listing main_arch libdir path listing'
  end.

(** The outer loop of [_resolve_path], [for libdir in dirs]. *)
Fixpoint search_dirs (main_arch : Arch) (path : string) (dirs : list string)
  : list FsEvent * option string :=
  match dirs with
  | [] => ([], None)
  | libdir :: dirs' =>
      let direct := PyStr.join libdir path in
      if _check_lib main_arch direct
      then ([EvCheckLib direct], Some (realpath W direct))
      else if ignore_import_version_numbers cfg then
        let listing := default [] (listdir W libdir) in
        let r := scan_listing main_arch libdir path listing in
        match r.2 with
        | Some found => (EvCheckLib direct :: EvListdir libdir :: r.1, Some found)
        | None =>
            let r' := search_dirs main_arch path dirs' in
            (EvCheckLib direct :: EvListdir libdir :: r.1 ++ r'.1, r'.2)
        end
      else
        let r' := search_dirs main_arch path dirs' in
        (EvCheckLib direct :: r'.1, r'.2)
  end.

(** The search list of [_resolve_path]. *)
Definition search_list (main_arch : Arch) : list string :=
  _custom_ld_path ++ ["."; PyStr.dirname _main_binary_path] ++ library_search_path W main_arch.

(** [_resolve_path(path)]: the filesystem calls made, and the path found
    ([None] when the function falls off its end). *)
Definition _resolve_path (self : Ld) (path : string) : result (list FsEvent * option string) :=
  if PyStr.has_sep path then
    mb ← the_main_bin self;
    if _check_lib (arch mb) path
    then OK ([EvCheckLib path], Some path)
    else OK ([EvCheckLib path], None)
  else
    mb ← the_main_bin self;
    OK (search_dirs (arch mb) path (search_list (arch mb))).

(** [not path] for the value [_resolve_path] returned. *)
Definition not_path (path : option string) : bool :=
  match path with
  | None => true
  | Some p => String.eqb p ""
  end.

(** The dedup test at the head of the loop body of
    [_load_dependencies]. *)
Definition already_satisfied (self : Ld) (dep : string) : bool :=
  bool_decide (PyStr.basename dep ∈ _satisfied_deps self)
  || (ignore_import_version_numbers cfg
      && bool_decide (fuzzy_strip dep ∈ _satisfied_deps self)).

(** One turn of the [while] loop of [_load_dependencies], after
    [dep = self._unsatisfied_deps.pop(0)]. *)
Definition load_dependency (self : Ld) (dep : string) : result Ld :=
  if bool_decide (PyStr.basename dep ∈ _satisfied_deps self) then OK self
  else if ignore_import_version_numbers cfg
          && bool_decide (fuzzy_strip dep ∈ _satisfied_deps self) then OK self
  else
    r ← _resolve_path self dep;
    let self := set_fs_trace self (fs_trace self ++ r.1) in
    if not_path r.2 then
      if except_missing_libs cfg
      then Raise (CLException ("Could not find shared library: " +:+ dep))
      else OK self
    else
      let path := default "" r.2 in
      let libname := PyStr.basename path in
      let options := default no_options (_lib_opts !! libname) in
      obj ← load_object path options;
      let base_addr := default None (opt_custom_base_addr options) in
      let idx := List.length (all_objects self) in
      self ← add_object self obj base_addr;
      match all_objects self !! idx with
      | Some obj => OK (set_shared_objects self (<[provides obj := idx]> (shared_objects self)))
      | None => Raise AttributeError
      end.

(** [_load_dependencies()]: the [while] loop, with fuel; [None] when the
    fuel runs out before the queue is empty. *)
Fixpoint _load_dependencies (fuel : nat) (self : Ld) : option (result Ld) :=
  match _unsatisfied_deps self with
  | [] => Some (OK self)
  | dep :: rest =>
      match fuel with
      | O => None
      | S fuel' =>
          match load_dependency (set_unsatisfied_deps self rest) dep with
          | OK self' => _load_dependencies fuel' self'
          | Raise e => Some (Raise e)
          end
      end
  end.

(** [_load_main_binary()].  The base is
    [self._main_opts.get('custom_base_addr', 0)]: 0 only when the key is
    missing, so a stored [None] reaches [add_object] as [None]. *)
Definition _load_main_binary (self : Ld) : result Ld :=
  mb ← load_object _main_binary_path _main_opts;
  let self := set_main_bin self (Some (List.length (all_objects self))) in
  let self := set_memory self (Some {| backers := [] |}) in
  let base_addr := default (Some 0) (opt_custom_base_addr _main_opts) in
  add_object self mb base_addr.

(** [_all_so_exports()].  [for i in self.shared_objects] runs over the
    keys of the dictionary, and [i.exports] is read from each key. *)
Definition _all_so_exports (self : Ld) : result (gmap string Z) :=
  for_each
    (fun (exports : gmap string Z) (i : option string) =>
       i_exports ← getattr_exports (py_of_key i);
       (* exports[symb] = addr, for each item of i.exports *)
       OK (i_exports ∪ exports))
    (map_to_list (shared_objects self)).*1
    ∅.

(** The body of the loop of [_resolve_imports_ida] for one import: the
    address the import is bound to, if any. *)
Definition resolve_import (b : Obj) (so_exports : gmap string Z) (name : string) : option Z :=
  match exports b !! name with
  | Some newaddr => Some newaddr
  | None =>
      match so_exports !! name with
      | Some newaddr => Some newaddr
      | None => None
      end
  end.

(** [_resolve_imports_ida(b)], for the image at position [i]: each
    resolved import is handed to [b.update_addrs([ea], newaddr)].  The
    method [IdaBin.update_addrs] is not among the sources: the calls are
    recorded in [ida_updates], in order, and each is taken to return. *)
Definition _resolve_imports_ida (self : Ld) (i : nat) (b : Obj) : result Ld :=
  so_exports ← _all_so_exports self;
  OK (fold_left
        (fun self (imp : string * Z) =>
           match resolve_import b so_exports imp.1 with
           | Some newaddr => set_ida_updates self (ida_updates self ++ [(i, imp.2, newaddr)])
           | None => self
           end)
        (imports b) self).

(** The body of the loop of [_perform_reloc] for the image at position [i]. *)
Definition reloc_object (self : Ld) (i : nat) (obj : Obj) : result Ld :=
  let obj := set_tls_module_id obj i in
  let self := set_all_objects self (<[i := obj]> (all_objects self)) in
  if obj_isinstance W obj IdaBin then _resolve_imports_ida self i obj
  else if obj_isinstance W obj Pe then OK self
  else if obj_isinstance W obj MetaELF then
    for_each (fun self reloc => _ ← relocate W reloc (all_objects self); OK self)
             (relocs obj) self
  else OK self.

(** [for i, obj in enumerate(self.all_objects)], from position [i] on,
    for at most [n] images. *)
Fixpoint perform_reloc_from (n i : nat) (self : Ld) : result Ld :=
  match n with
  | O => OK self
  | S n' =>
      match all_objects self !! i with
      | None => OK self
      | Some obj =>
          self' ← reloc_object self i obj;
          perform_reloc_from n' (S i) self'
      end
  end.

(** [_perform_reloc()] *)
Definition _perform_reloc (self : Ld) : result Ld :=
  perform_reloc_from (List.length (all_objects self)) 0 self.

(** [ida_sync_mem()] *)
Definition ida_sync_mem (self : Ld) : result Ld :=
  let objs := filter (fun i => obj_isinstance W i IdaBin = true) (all_objects self) in
  for_each
    (fun self o =>
       match memory self with
       | None => Raise AttributeError
       | Some m =>
           m' ← update_backer m (rebase_addr o) (obj_memory o);
           OK (set_memory self (Some m'))
       end)
    objs self.

(** [Ld.__init__]: [None] when the dependency loop runs out of fuel. *)
Definition Ld_init (fuel : nat) : option (result Ld) :=
  match _load_main_binary initial with
  | Raise e => Some (Raise e)
  | OK self =>
      match _load_dependencies fuel self with
      | None => None
      | Some (Raise e) => Some (Raise e)
      | Some (OK self) =>
          Some (self ← _perform_reloc self;
                mb ← the_main_bin self;
                if obj_isinstance W mb IdaBin then ida_sync_mem self else OK self)
      end
  end.

(** [addr_belongs_to_object(addr)] *)
Definition addr_belongs_to_object (self : Ld) (addr : Z) : option Obj :=
  List.find (fun obj => mem_contains (obj_memory obj) (addr - rebase_addr obj))
            (all_objects self).

(** [addr_is_ida_mapped(addr)]:
    [isinstance(IdaBin, self.addr_belongs_to_object(addr))] *)
Definition addr_is_ida_mapped (self : Ld) (addr : Z) : result bool :=
  isinstance W (PyClass IdaBin) (py_of_obj (addr_belongs_to_object self addr)).

(** [addr_is_mapped(addr)] *)
Definition addr_is_mapped (self : Ld) (addr : Z) : bool :=
  match addr_belongs_to_object self addr with
  | Some _ => true
  | None => false
  end.

End Loader.

(** ** Properties the theorems are stated with *)

(** The first and the last character of a string. *)
Definition first_char (s : string) : option ascii :=
  match s with
  | EmptyString => None
  | String c _ => Some c
  end.

Fixpoint last_char (s : string) : option ascii :=
  match s with
  | EmptyString => None
  | String c EmptyString => Some c
  | String _ s' => last_char s'
  end.

(** The character, if there is one, is not one of [chars]. *)
Definition outside (chars : string) (c : option ascii) : Prop :=
  match c with
  | Some c => PyStr.char_in c chars = false
  | None => True
  end.

(** The image contains the absolute address [addr]. *)
Definition owns (addr : Z) (obj : Obj) : Prop :=
  mem_contains (obj_memory obj) (addr - rebase_addr obj) = true.

(** The absolute range [[rebase_addr + min, rebase_addr + max]] an image
    occupies, and two images whose ranges do not meet. *)
Definition occupied_lo (o : Obj) : Z := rebase_addr o + get_min_addr o.

Definition occupied_hi (o : Obj) : Z := rebase_addr o + get_max_addr o.

Definition ranges_disjoint (a b : Obj) : Prop :=
  occupied_hi a < occupied_lo b \/ occupied_hi b < occupied_lo a.

Definition pairwise_disjoint (l : list Obj) : Prop :=
  forall i j a b, i <> j -> l !! i = Some a -> l !! j = Some b -> ranges_disjoint a b.

(** Every library probe of the trace was turned down by [_check_lib]. *)
Definition probes_fail (W : World) (main_arch : Arch) (t : list FsEvent) : Prop :=
  forall q, EvCheckLib q ∈ t -> _check_lib W main_arch q = false.

(** The filesystem calls [_resolve_path] makes for one directory of its
    search list: the direct concatenation first; only when that was turned
    down and fuzzy matching is on, the listing of the directory and then
    candidates of the listing, in its order, whose stripped name equals
    the stripped [path]. *)
Definition dir_block (W : World) (cfg : Config) (main_arch : Arch) (path libdir : string)
    (b : list FsEvent) : Prop :=
  b = [EvCheckLib (PyStr.join libdir path)] \/
  (_check_lib W main_arch (PyStr.join libdir path) = false /\
   ignore_import_version_numbers cfg = true /\
   exists cands,
     b = EvCheckLib (PyStr.join libdir path) :: EvListdir libdir ::
           map (fun c => EvCheckLib (PyStr.join libdir c)) cands /\
     cands `sublist_of` default [] (listdir W libdir) /\
     Forall (fun c => fuzzy_strip c = fuzzy_strip path) cands).

(** How a search ended: on a probe that [_check_lib] accepted, whose real
    path is returned and before which every probe was turned down; or
    without a result, every probe turned down. *)
Definition search_outcome (W : World) (main_arch : Arch)
    (r : list FsEvent * option string) : Prop :=
  match r.2 with
  | Some p =>
      exists t q, r.1 = t ++ [EvCheckLib q] /\ probes_fail W main_arch t /\
                  _check_lib W main_arch q = true /\ p = realpath W q
  | None => probes_fail W main_arch r.1
  end.

(** [_satisfied_deps] after [add_object] has looked at [obj.provides]. *)
Definition satisfied_with (cfg : Config) (sat : gset string) (obj : Obj) : gset string :=
  match provides obj with
  | Some p =>
      if ignore_import_version_numbers cfg
      then sat ∪ {[ p ]} ∪ {[ fuzzy_strip p ]}
      else sat ∪ {[ p ]}
  | None => sat
  end.

(** Every dependency a loaded image declares is in [requested_objects]. *)
Definition deps_requested (self : Ld) : Prop :=
  forall o, o ∈ all_objects self -> forall d, d ∈ deps o -> d ∈ requested_objects self.

(** [_resolve_path] once the architecture of the main binary is known. *)
Definition resolve_from (W : World) (cfg : Config) (main_arch : Arch) (path : string)
  : list FsEvent * option string :=
  if PyStr.has_sep path then
    if _check_lib W main_arch path
    then ([EvCheckLib path], Some path)
    else ([EvCheckLib path], None)
  else search_dirs W cfg main_arch path (search_list W cfg main_arch).

(** Adding [obj] satisfies the name [dep]: what [obj] provides (or, with
    fuzzy matching, its fuzzy alias) is the basename of [dep] (or, with
    fuzzy matching, its stripped form). *)
Definition covers (cfg : Config) (obj : Obj) (dep : string) : bool :=
  bool_decide (PyStr.basename dep ∈ satisfied_with cfg ∅ obj)
  || (ignore_import_version_numbers cfg
      && bool_decide (fuzzy_strip dep ∈ satisfied_with cfg ∅ obj)).

(** How many names of [names] the dedup test does not yet skip. *)
Definition unsatisfied_count (cfg : Config) (names : list string) (self : Ld) : nat :=
  List.length (List.filter (fun d => negb (already_satisfied cfg self d)) names).

(** The main binary is in place and the queue holds names of [names]. *)
Definition queue_known (names : list string) (mb : Obj) (self : Ld) : Prop :=
  the_main_bin self = OK mb /\ forall d, d ∈ _unsatisfied_deps self -> d ∈ names.

(** Every backer of the memory map ends at or below the highest address
    of the loaded images. *)
Definition backers_below (self : Ld) : Prop :=
  exists m M, memory self = Some m /\ max_addr self = OK M /\
              Forall (fun b => b.1 + mem_size b.2 <= M + 1) (backers m).

(** ** The turns of the dependency loop *)

Section LoopStates.

Variable W : World.
Variable cfg : Config.

(** The three ways a turn of the loop can end without raising. *)
Inductive turn (self : Ld) (dep : string) (self' : Ld) : Prop :=
| turn_skip :
    already_satisfied cfg self dep = true ->
    self' = self ->
    turn self dep self'
| turn_drop (r : list FsEvent * option string) :
    already_satisfied cfg self dep = false ->
    _resolve_path W cfg self dep = OK r ->
    not_path r.2 = true ->
    except_missing_libs cfg = false ->
    self' = set_fs_trace self (fs_trace self ++ r.1) ->
    turn self dep self'
| turn_load (r : list FsEvent * option string) (path : string) (obj obj' : Obj) (s1 : Ld) :
    already_satisfied cfg self dep = false ->
    _resolve_path W cfg self dep = OK r ->
    r.2 = Some path ->
    load_object W path (default no_options (_lib_opts cfg !! PyStr.basename path)) = OK obj ->
    add_object W cfg (set_fs_trace self (fs_trace self ++ r.1)) obj
      (default None
         (opt_custom_base_addr (default no_options (_lib_opts cfg !! PyStr.basename path))))
      = OK s1 ->
    all_objects s1 = all_objects self ++ [obj'] ->
    self' = set_shared_objects s1
              (<[provides obj' := List.length (all_objects self)]> (shared_objects s1)) ->
    turn self dep self'.

(** The states the loader passes through at the head of the [while] loop
    of [_load_dependencies], starting from [start]. *)
Inductive loops_to (start : Ld) : Ld -> Prop :=
| loops_start : loops_to start start
| loops_turn (self self' : Ld) (dep : string) (rest : list string) :
    loops_to start self ->
    _unsatisfied_deps self = dep :: rest ->
    load_dependency W cfg (set_unsatisfied_deps self rest) dep = OK self' ->
    loops_to start self'.

End LoopStates.

(** ** Concrete worlds *)

(** An image of [size] bytes at offsets [0 .. size - 1], as a backend
    hands it over: not yet rebased, no module id. *)
Definition image (c : Class) (path : string) (soname : option string) (needed : list string)
    (exp : gmap string Z) (imp : list (string * Z)) (size : Z) : Obj :=
  {| cls := c; binary := path; arch := "AMD64"; provides := soname; deps := needed;
     exports := exp; imports := imp; relocs := [];
     obj_memory := {| mem_size := size; mem_offsets := list_to_set (seqZ 0 size) |};
     get_min_addr := 0; get_max_addr := size - 1; rebase_addr := 0;
     tls_module_id := None |}.

Fixpoint assoc {A : Type} (k : string) (l : list (string * A)) : option A :=
  match l with
  | [] => None
  | (k', v) :: l' => if String.eqb k k' then Some v else assoc k l'
  end.

(** A world with the given files (all of architecture AMD64) and
    directory listings, where [realpath] is the identity and
    [IdaBin.rebase] stores the base. *)
Definition fs_world (files : list (string * Obj)) (dirs : list (string * list string)) : World :=
  {| arch_from_binary := fun p => match assoc p files with Some _ => Some "AMD64" | None => None end;
     listdir := fun d => assoc d dirs;
     realpath := fun p => p;
     library_search_path := fun _ => ["/usr/lib"];
     backend_new := fun _ p _ =>
       match assoc p files with
       | Some o => OK o
       | None => Raise (BackendError "no such file")
       end;
     ida_rebase := fun o b => OK (set_rebase_addr o b);
     relocate := fun _ _ => OK ();
     metaelf_subclass := fun c =>
       match c with
       | ELF | CLEExtractor => true
       | _ => false
       end |}.

Definition config (main : string) : Config :=
  {| main_binary := main; auto_load_libs := true; force_load_libs := None;
     skip_libs := None; main_opts := None; lib_opts := None;
     custom_ld_path := None; ignore_import_version_numbers := true;
     rebase_granularity := 256; except_missing_libs := true |}.

(** A main binary that needs [libc.so.6], found in [/usr/lib]. *)
Definition main_elf : Obj :=
  image ELF "/bin/main" None ["libc.so.6"] ∅ [("printf", 8)] 16.

Definition libc_elf : Obj :=
  image ELF "/usr/lib/libc.so.6" (Some "libc.so.6") [] {[ "printf" := 4 ]} [] 32.

Definition world_libc : World :=
  fs_world [("/bin/main", main_elf); ("/usr/lib/libc.so.6", libc_elf)]
           [("/usr/lib", ["libc.so.6"])].

Definition config_libc : Config := config "/bin/main".

(** The loader of [world_libc] once the main binary is in. *)
Definition after_main_libc : Ld :=
  match _load_main_binary world_libc config_libc (initial config_libc) with
  | OK self => self
  | Raise _ => initial config_libc
  end.

(** An image handed to the IDA backend. *)
Definition ida_image : Obj :=
  image IdaBin "/usr/lib/libida.so" (Some "libida.so") [] ∅ [] 16.

(** [libc_elf] added to it by hand at [0x1000], and at a base of the
    loader's choice. *)
Definition after_libc_custom : Ld :=
  match add_object world_libc config_libc after_main_libc libc_elf (Some 4096) with
  | OK self => self
  | Raise _ => after_main_libc
  end.

Definition after_libc_safe : Ld :=
  match add_object world_libc config_libc after_main_libc libc_elf None with
  | OK self => self
  | Raise _ => after_main_libc
  end.

(** An [IdaBin] image added to it. *)
Definition after_ida : Ld :=
  match add_object world_libc config_libc after_main_libc ida_image (Some 4096) with
  | OK self => self
  | Raise _ => after_main_libc
  end.

(** What [_resolve_path] does for [libc.so.6] in [world_libc]. *)
Definition resolved_libc : list FsEvent * option string :=
  ([EvCheckLib "./libc.so.6"; EvListdir "."; EvCheckLib "/bin/libc.so.6";
    EvListdir "/bin"; EvCheckLib "/usr/lib/libc.so.6"],
   Some "/usr/lib/libc.so.6").

(** The final state of a construction that returned (the initial state
    otherwise). *)
Definition constructed (W : World) (cfg : Config) (fuel : nat) : Ld :=
  match Ld_init W cfg fuel with
  | Some (OK self) => self
  | _ => initial cfg
  end.

(** A main binary that needs [libmystery.so], which is nowhere. *)
Definition main_mystery : Obj :=
  image ELF "/bin/main" None ["libmystery.so"] ∅ [] 16.

Definition world_mystery : World := fs_world [("/bin/main", main_mystery)] [].

Definition config_lenient (main : string) : Config :=
  {| main_binary := main; auto_load_libs := true; force_load_libs := None;
     skip_libs := None; main_opts := None; lib_opts := None;
     custom_ld_path := None; ignore_import_version_numbers := true;
     rebase_granularity := 256; except_missing_libs := false |}.

Definition after_main_mystery : Ld :=
  match _load_main_binary world_mystery (config_lenient "/bin/main")
          (initial (config_lenient "/bin/main")) with
  | OK self => self
  | Raise _ => initial (config_lenient "/bin/main")
  end.

Definition resolved_mystery : list FsEvent * option string :=
  ([EvCheckLib "./libmystery.so"; EvListdir "."; EvCheckLib "/bin/libmystery.so";
    EvListdir "/bin"; EvCheckLib "/usr/lib/libmystery.so"; EvListdir "/usr/lib"],
   None).

(** A main binary without dependencies, and a library forced on the
    loader that is nowhere. *)
Definition main_plain : Obj := image ELF "/bin/main" None [] ∅ [] 16.

Definition world_plain : World := fs_world [("/bin/main", main_plain)] [].

Definition config_force : Config :=
  {| main_binary := "/bin/main"; auto_load_libs := true;
     force_load_libs := Some ["libextra.so"];
     skip_libs := None; main_opts := None; lib_opts := None;
     custom_ld_path := None; ignore_import_version_numbers := true;
     rebase_granularity := 256; except_missing_libs := false |}.

(** Two libraries that need each other, each with the soname it is asked
    for by. *)
Definition main_ring : Obj := image ELF "/bin/main" None ["liba.so"] ∅ [] 16.

Definition liba_named : Obj :=
  image ELF "/usr/lib/liba.so" (Some "liba.so") ["libb.so"] ∅ [] 16.

Definition libb_named : Obj :=
  image ELF "/usr/lib/libb.so" (Some "libb.so") ["liba.so"] ∅ [] 16.

Definition world_ring_named : World :=
  fs_world [("/bin/main", main_ring); ("/usr/lib/liba.so", liba_named);
            ("/usr/lib/libb.so", libb_named)]
           [("/usr/lib", ["liba.so"; "libb.so"])].

Definition after_main_ring_named : Ld :=
  match _load_main_binary world_ring_named (config "/bin/main") (initial (config "/bin/main")) with
  | OK self => self
  | Raise _ => initial (config "/bin/main")
  end.

(** The same two libraries without a soname. *)
Definition liba_anon : Obj := image ELF "/usr/lib/liba.so" None ["libb.so"] ∅ [] 16.

Definition libb_anon : Obj := image ELF "/usr/lib/libb.so" None ["liba.so"] ∅ [] 16.

Definition world_ring : World :=
  fs_world [("/bin/main", main_ring); ("/usr/lib/liba.so", liba_anon);
            ("/usr/lib/libb.so", libb_anon)]
           [("/usr/lib", ["liba.so"; "libb.so"])].

Definition after_main_ring : Ld :=
  match _load_main_binary world_ring (config "/bin/main") (initial (config "/bin/main")) with
  | OK self => self
  | Raise _ => initial (config "/bin/main")
  end.

(** The main binary of the two worlds above once it is loaded. *)
Definition main_ring_loaded : Obj := set_rebase_addr (set_cls main_ring ELF) 0.

(** The states in which the loop of [world_ring] finds itself. *)
Definition ring_inv (self : Ld) : Prop :=
  (_unsatisfied_deps self = ["liba.so"] \/ _unsatisfied_deps self = ["libb.so"]) /\
  _satisfied_deps self = ∅ /\
  the_main_bin self = OK main_ring_loaded /\
  backers_below self.

(** A main binary handed to the IDA backend, which imports [printf] from
    [libc.so.6]. *)
Definition main_ida : Obj :=
  image IdaBin "/bin/main" None ["libc.so.6"] ∅ [("printf", 8)] 16.

Definition world_ida : World :=
  fs_world [("/bin/main", main_ida); ("/usr/lib/libc.so.6", libc_elf)]
           [("/usr/lib", ["libc.so.6"])].

Definition config_ida : Config :=
  {| main_binary := "/bin/main"; auto_load_libs := true; force_load_libs := None;
     skip_libs := None;
     main_opts := Some {| opt_backend := Some (Some "ida"); opt_custom_base_addr := None |};
     lib_opts := None; custom_ld_path := None; ignore_import_version_numbers := true;
     rebase_granularity := 256; except_missing_libs := true |}.

(** The loader of [world_ida] when the dependency loop is through. *)
Definition loaded_ida : Ld :=
  match _load_main_binary world_ida config_ida (initial config_ida) with
  | OK self =>
      match _load_dependencies world_ida config_ida 1 self with
      | Some (OK self') => self'
      | _ => self
      end
  | Raise _ => initial config_ida
  end.

(** An IDA-backed binary on its own, which imports a symbol it exports. *)
Definition lone_ida : Obj :=
  image IdaBin "/bin/lone" None [] {[ "helper" := 12 ]} [("helper", 8); ("printf", 4)] 16.

Definition world_lone : World := fs_world [("/bin/lone", lone_ida)] [].

Definition config_lone : Config :=
  {| main_binary := "/bin/lone"; auto_load_libs := true; force_load_libs := None;
     skip_libs := None;
     main_opts := Some {| opt_backend := Some (Some "ida"); opt_custom_base_addr := None |};
     lib_opts := None; custom_ld_path := None; ignore_import_version_numbers := true;
     rebase_granularity := 256; except_missing_libs := true |}.

(** ** Search functions *)

(** [for x in xs: r = f(x); if r is not None: return r], and [None]
    when the loop runs out. *)
Fixpoint first_hit {A B : Type} (f : A -> option B) (xs : list A) : option B :=
  match xs with
  | [] => None
  | x :: xs' =>
      match f x with
      | Some b => Some b
      | None => first_hit f xs'
      end
  end.

(** [v.path]: only images have the attribute. *)
Definition getattr_path (v : PyVal) : result string :=
  match v with
  | PyObj o => OK (binary o)
  | _ => Raise AttributeError
  end.

(** The loop of [_so_name_from_symbol] over the keys of
    [shared_objects]. *)
Fixpoint so_name_loop (symb : string) (keys : list (option string)) : result (option string) :=
  match keys with
  | [] => OK None
  | i :: keys' =>
      i_exports ← getattr_exports (py_of_key i);
      match i_exports !! symb with
      | Some _ => i_path ← getattr_path (py_of_key i); OK (Some (PyStr.basename i_path))
      | None => so_name_loop symb keys'
      end
  end.

(** [_so_name_from_symbol(symb)] *)
Definition _so_name_from_symbol (self : Ld) (symb : string) : result (option string) :=
  so_name_loop symb (map_to_list (shared_objects self)).*1.

Section Search.

(** Attributes and methods of the backend objects that only the search
    functions use: [so.symbols_by_addr] (here the [name] of the symbol at
    each image-local address), [o.guess_function_name(addr)],
    [o.contains_addr(addr)] and [main_bin.jmprel] (here the [addr] of the
    relocation of each symbol). *)
Variable symbols_by_addr : Obj -> gmap Z string.
Variable obj_guess_function_name : Obj -> Z -> option string.
Variable contains_addr : Obj -> Z -> bool.
Variable jmprel : Obj -> gmap string Z.

(** [find_symbol_name(addr)] *)
Definition find_symbol_name (self : Ld) (addr : Z) : option string :=
  first_hit (fun so => symbols_by_addr so !! (addr - rebase_addr so)) (all_objects self).

(** [guess_function_name(addr)] *)
Definition guess_function_name (self : Ld) (addr : Z) : option string :=
  first_hit (fun o => obj_guess_function_name o addr) (all_objects self).

(** [find_module_name(addr)] *)
Definition find_module_name (self : Ld) (addr : Z) : option string :=
  first_hit
    (fun o => if contains_addr o (addr - rebase_addr o)
              then Some (PyStr.basename (binary o)) else None)
    (all_objects self).

(** [find_symbol_got_entry(symbol)]; [imports] is searched by key. *)
Definition find_symbol_got_entry (W : World) (self : Ld) (symbol : string) : option Z :=
  match main_bin self ≫= (fun i => all_objects self !! i) with
  | Some mb =>
      if obj_isinstance W mb IdaBin then
        match assoc symbol (imports mb) with
        | Some ea => Some ea
        | None => None
        end
      else if obj_isinstance W mb ELF then
        match jmprel mb !! symbol with
        | Some a => Some a
        | None => None
        end
      else None
  | None => None
  end.

End Search.

(** ** More properties the theorems are stated with *)

(** What the loader has satisfied covers what its images provide: the
    soname of every image and, with fuzzy matching, its stripped form. *)
Definition provides_satisfied (cfg : Config) (self : Ld) : Prop :=
  forall o p, o ∈ all_objects self -> provides o = Some p ->
    p ∈ _satisfied_deps self /\
    (ignore_import_version_numbers cfg = true -> fuzzy_strip p ∈ _satisfied_deps self).

(** Every entry of [shared_objects] refers to a loaded image other than
    the main binary, under the name the image provides. *)
Definition shared_objects_sound (self : Ld) : Prop :=
  forall k i, shared_objects self !! k = Some i ->
    (1 <= i)%nat /\ exists o, all_objects self !! i = Some o /\ provides o = k.

(** Every image but the main binary is found in [shared_objects] under
    what it provides, unless a later image provides the same. *)
Definition shared_objects_complete (self : Ld) : Prop :=
  forall i o, (1 <= i)%nat -> all_objects self !! i = Some o ->
    exists j, (i <= j)%nat /\ shared_objects self !! provides o = Some j.

(** A declared dependency is accounted for: still queued, skipped by the
    dedup test, or found by the path search. *)
Definition accounted (W : World) (cfg : Config) (main_arch : Arch) (self : Ld) (d : string)
  : Prop :=
  d ∈ _unsatisfied_deps self \/
  already_satisfied cfg self d = true \/
  exists p, (resolve_from W cfg main_arch d).2 = Some p.

(** The two states agree on the queue, the satisfied set, the main
    binary, the shared objects, the requested names and the filesystem
    trace. *)
Definition same_loading (self self' : Ld) : Prop :=
  _unsatisfied_deps self' = _unsatisfied_deps self /\
  _satisfied_deps self' = _satisfied_deps self /\
  main_bin self' = main_bin self /\
  shared_objects self' = shared_objects self /\
  requested_objects self' = requested_objects self /\
  fs_trace self' = fs_trace self.

(** [_load_main_binary] returns with [mb] as the only image and as
    [main_bin], stored at [base]; the dependencies [mb] declares are
    requested and, with [auto_load_libs], queued behind
    [force_load_libs]. *)
Definition main_placed_at (W : World) (cfg : Config) (mb : Obj) (base : Z) : Prop :=
  exists s0,
    _load_main_binary W cfg (initial cfg) = OK s0 /\
    all_objects s0 = [set_rebase_addr mb base] /\
    main_bin s0 = Some 0%nat /\
    shared_objects s0 = ∅ /\
    requested_objects s0 = list_to_set (deps mb) /\
    _unsatisfied_deps s0 =
      (if auto_load_libs cfg then default [] (force_load_libs cfg) ++ deps mb
       else default [] (force_load_libs cfg)).

(** Every requested name is declared by a loaded image. *)
Definition requested_declared (self : Ld) : Prop :=
  forall d, d ∈ requested_objects self -> exists o, o ∈ all_objects self /\ d ∈ deps o.

(** ** More concrete worlds *)

(** [world_libc] with automatic loading off and [libc.so.6] forced. *)
Definition config_forced_libc : Config :=
  {| main_binary := "/bin/main"; auto_load_libs := false;
     force_load_libs := Some ["libc.so.6"];
     skip_libs := None; main_opts := None; lib_opts := None;
     custom_ld_path := None; ignore_import_version_numbers := true;
     rebase_granularity := 256; except_missing_libs := true |}.

(** [world_libc] with [libc.so.6] on the skip list. *)
Definition config_skip_libc : Config :=
  {| main_binary := "/bin/main"; auto_load_libs := true;
     force_load_libs := None;
     skip_libs := Some ["libc.so.6"]; main_opts := None; lib_opts := None;
     custom_ld_path := None; ignore_import_version_numbers := true;
     rebase_granularity := 256; except_missing_libs := true |}.

Definition after_main_skip : Ld :=
  match _load_main_binary world_libc config_skip_libc (initial config_skip_libc) with
  | OK self => self
  | Raise _ => initial config_skip_libc
  end.

(** [world_libc] with a zero granularity. *)
Definition config_zero : Config :=
  {| main_binary := "/bin/main"; auto_load_libs := true;
     force_load_libs := None;
     skip_libs := None; main_opts := None; lib_opts := None;
     custom_ld_path := None; ignore_import_version_numbers := true;
     rebase_granularity := 0; except_missing_libs := true |}.

(** The loader of [world_libc] when the dependency loop is through. *)
Definition loaded_libc : Ld :=
  match _load_dependencies world_libc config_libc 1 after_main_libc with
  | Some (OK self) => self
  | _ => after_main_libc
  end.

(** The loader of the IDA-backed binary on its own. *)
Definition after_main_lone : Ld :=
  match _load_main_binary world_lone config_lone (initial config_lone) with
  | OK self => self
  | Raise _ => initial config_lone
  end.

(** Symbol tables for [main_elf] and [libc_elf]. *)
Definition symbols_libc (o : Obj) : gmap Z string :=
  if String.eqb (binary o) "/bin/main" then {[ 0 := "main" ]}
  else {[ 4 := "printf" ]}.

Definition after_main_forced : Ld :=
  match _load_main_binary world_libc config_forced_libc (initial config_forced_libc) with
  | OK self => self
  | Raise _ => initial config_forced_libc
  end.

(** [lone_ida] as the loader holds it. *)
Definition lone_ida_loaded : Obj := set_rebase_addr (set_cls lone_ida IdaBin) 0.

(** [world_libc] with a negative granularity. *)
Definition config_negative : Config :=
  {| main_binary := "/bin/main"; auto_load_libs := true;
     force_load_libs := None;
     skip_libs := None; main_opts := None; lib_opts := None;
     custom_ld_path := None; ignore_import_version_numbers := true;
     rebase_granularity := -256; except_missing_libs := true |}.

(** [world_libc] with [main_opts = {'custom_base_addr': None}]. *)
Definition config_none_base : Config :=
  {| main_binary := "/bin/main"; auto_load_libs := true;
     force_load_libs := None;
     skip_libs := None;
     main_opts := Some {| opt_backend := None; opt_custom_base_addr := Some None |};
     lib_opts := None;
     custom_ld_path := None; ignore_import_version_numbers := true;
     rebase_granularity := 256; except_missing_libs := true |}.

(** The same with a zero granularity. *)
Definition config_none_base_zero : Config :=
  {| main_binary := "/bin/main"; auto_load_libs := true;
     force_load_libs := None;
     skip_libs := None;
     main_opts := Some {| opt_backend := None; opt_custom_base_addr := Some None |};
     lib_opts := None;
     custom_ld_path := None; ignore_import_version_numbers := true;
     rebase_granularity := 0; except_missing_libs := true |}.

(** [world_libc] with [main_opts = {'backend': None}]. *)
Definition config_none_backend : Config :=
  {| main_binary := "/bin/main"; auto_load_libs := true;
     force_load_libs := None;
     skip_libs := None;
     main_opts := Some {| opt_backend := Some None; opt_custom_base_addr := None |};
     lib_opts := None;
     custom_ld_path := None; ignore_import_version_numbers := true;
     rebase_granularity := 256; except_missing_libs := true |}.

(** A world whose relocations of kind 99 raise, and a loader holding one
    image with such a relocation. *)
Definition world_bad_reloc : World :=
  {| arch_from_binary := arch_from_binary world_libc;
     listdir := listdir world_libc;
     realpath := realpath world_libc;
     library_search_path := library_search_path world_libc;
     backend_new := backend_new world_libc;
     ida_rebase := ida_rebase world_libc;
     relocate := fun r _ =>
       if Nat.eqb (reloc_kind r) 99 then Raise (BackendError "unsupported relocation")
       else OK ();
     metaelf_subclass := metaelf_subclass world_libc |}.

Definition main_bad_reloc : Obj :=
  {| cls := ELF; binary := "/bin/main"; arch := "AMD64"; provides := None; deps := [];
     exports := ∅; imports := [];
     relocs := [ {| reloc_symbol := "puts"; reloc_slot := 8; reloc_kind := 7;
                    reloc_addend := 0 |};
                 {| reloc_symbol := "tls"; reloc_slot := 12; reloc_kind := 99;
                    reloc_addend := 0 |} ];
     obj_memory := {| mem_size := 16; mem_offsets := list_to_set (seqZ 0 16) |};
     get_min_addr := 0; get_max_addr := 15; rebase_addr := 0;
     tls_module_id := None |}.

Definition loaded_bad_reloc : Ld :=
  set_all_objects (set_main_bin (initial config_libc) (Some 0%nat)) [main_bad_reloc].

(** [world_libc] with a negative granularity and the main binary at
    1000. *)
Definition config_negative_high : Config :=
  {| main_binary := "/bin/main"; auto_load_libs := true;
     force_load_libs := None;
     skip_libs := None;
     main_opts := Some {| opt_backend := None; opt_custom_base_addr := Some (Some 1000) |};
     lib_opts := None;
     custom_ld_path := None; ignore_import_version_numbers := true;
     rebase_granularity := -256; except_missing_libs := true |}.

Definition after_main_high : Ld :=
  match _load_main_binary world_libc config_negative_high (initial config_negative_high) with
  | OK self => self
  | Raise _ => initial config_negative_high
  end.
Example fuzzy_strip_libc6 : fuzzy_strip "libc.so.6" = "libc.so".
Proof. reflexivity. Qed.

Example fuzzy_strip_libc0 : fuzzy_strip "libc.so.0" = "libc.so".
Proof. reflexivity. Qed.

Example fuzzy_strip_leading : fuzzy_strip "7z.so.1" = "z.so".
Proof. reflexivity. Qed.

Example basename_ex : PyStr.basename "/usr/lib/libc.so.6" = "libc.so.6".
Proof. reflexivity. Qed.

Example dirname_ex : PyStr.dirname "/usr/bin/true" = "/usr/bin".
Proof. reflexivity. Qed.

Example dirname_root : PyStr.dirname "/true" = "/".
Proof. reflexivity. Qed.

Example join_ex : PyStr.join "/usr/lib" "libc.so.6" = "/usr/lib/libc.so.6".
Proof. reflexivity. Qed.

Example join_slash : PyStr.join "/usr/lib/" "libc.so.6" = "/usr/lib/libc.so.6".
Proof. reflexivity. Qed.

(** The spec's scenario of a main binary and one library: libc goes to
    the next multiple of the granularity. *)
Example libc_rebased :
  map (fun o => (binary o, rebase_addr o, tls_module_id o))
      (all_objects (constructed world_libc config_libc 1)) =
  [("/bin/main", 0, Some 0%nat); ("/usr/lib/libc.so.6", 256, Some 1%nat)].
Proof. vm_compute. reflexivity. Qed.

(** [max_addr()] counts the image being added: a library larger than the
    granularity is put past its own extent, not at the next multiple
    after the images loaded before. *)
Example safe_rebase_counts_new_image :
  _get_safe_rebase_addr config_libc
    (set_all_objects after_main_libc
       (all_objects after_main_libc ++ [image ELF "/usr/lib/libbig.so" None [] ∅ [] 768])) =
  OK 768.
Proof. vm_compute. reflexivity. Qed.

(** A missing library with [except_missing_libs]. *)
Example mystery_raises :
  Ld_init world_mystery (config "/bin/main") 1 =
  Some (Raise (CLException "Could not find shared library: libmystery.so")).
Proof. vm_compute. reflexivity. Qed.

(** The same without it: one image, and the name is requested. *)
Example mystery_dropped :
  List.length (all_objects (constructed world_mystery (config_lenient "/bin/main") 1)) = 1%nat /\
  elements (requested_objects (constructed world_mystery (config_lenient "/bin/main") 1)) =
    ["libmystery.so"].
Proof. split; vm_compute; reflexivity. Qed.

(** Two libraries that need each other and carry their sonames. *)
Example ring_named_loaded :
  map binary (all_objects (constructed world_ring_named (config "/bin/main") 3)) =
  ["/bin/main"; "/usr/lib/liba.so"; "/usr/lib/libb.so"].
Proof. vm_compute. reflexivity. Qed.

(** An IDA-backed binary on its own: the import it exports itself is
    bound to its own export, the other one stays unresolved. *)
Example lone_ida_updates :
  match _load_main_binary world_lone config_lone (initial config_lone) with
  | OK self =>
      match _perform_reloc world_lone self with
      | OK self' => ida_updates self'
      | Raise _ => []
      end
  | Raise _ => []
  end = [(0%nat, 8, 12)].
Proof. vm_compute. reflexivity. Qed.

(** Its construction then stops in [ida_sync_mem]: no backer was
    registered for the image that [update_backer] could replace. *)
Example lone_ida_sync : Ld_init world_lone config_lone 0 = Some (Raise NotFound).
Proof. vm_compute. reflexivity. Qed.

(** The image that owns address 5 of that loader is the IDA-backed one,
    and the query about it raises all the same. *)
Example lone_ida_query :
  match _load_main_binary world_lone config_lone (initial config_lone) with
  | OK self =>
      (option_map cls (addr_belongs_to_object self 5), addr_is_ida_mapped world_lone self 5)
  | Raise _ => (None, OK false)
  end = (Some IdaBin, Raise TypeError).
Proof. vm_compute. reflexivity. Qed.

(** Symbols are looked up at their address less the base of the image:
    [printf], at offset 4 of the library loaded at 256, is found at 260
    and not at 4. *)
Example find_symbol_name_libc :
  (find_symbol_name symbols_libc loaded_libc 0,
   find_symbol_name symbols_libc loaded_libc 260,
   find_symbol_name symbols_libc loaded_libc 4) =
  (Some "main", Some "printf", None).
Proof. vm_compute. reflexivity. Qed.

(** [_so_name_from_symbol] before and after the library is loaded. *)
Example so_name_from_symbol_libc :
  (_so_name_from_symbol after_main_libc "printf",
   _so_name_from_symbol loaded_libc "printf") =
  (OK None, Raise AttributeError).
Proof. vm_compute. reflexivity. Qed.

(** A negative granularity puts the next image on top of the main
    binary, which occupies 0 to 15. *)
Example negative_granularity_base :
  (max_addr after_main_libc, _get_safe_rebase_addr config_negative after_main_libc) =
  (OK 15, OK 0).
Proof. vm_compute. reflexivity. Qed.

(** Without an IDA-backed image [ida_sync_mem] leaves the loader as it
    is. *)
Example ida_sync_mem_libc : ida_sync_mem world_libc loaded_libc = OK loaded_libc.
Proof. vm_compute. reflexivity. Qed.

(** [main_opts = {'custom_base_addr': None}]: the main binary gets a
    safe rebase address, and so does the library after it; with a zero
    granularity the construction already fails on the main binary. *)
Example main_stored_none_base :
  (match Ld_init world_libc config_none_base 1 with
   | Some (OK final) => map rebase_addr (all_objects final)
   | _ => []
   end,
   Ld_init world_libc config_none_base_zero 1) =
  ([256; 512], Some (Raise ZeroDivisionError)).
Proof. vm_compute. reflexivity. Qed.

(** [main_opts = {'backend': None}] is an invalid backend. *)
Example main_stored_none_backend :
  Ld_init world_libc config_none_backend 1 =
  Some (Raise (CLException "Invalid backend: None")).
Proof. vm_compute. reflexivity. Qed.

(** A relocation that raises stops [_perform_reloc]. *)
Example bad_reloc_raises :
  _perform_reloc world_bad_reloc loaded_bad_reloc =
  Raise (BackendError "unsupported relocation").
Proof. vm_compute. reflexivity. Qed.

(** With a zero granularity the main binary is still stored, at 0; the
    construction fails on the first library. *)
Example zero_granularity :
  (match _load_main_binary world_libc config_zero (initial config_zero) with
   | OK self => map rebase_addr (all_objects self)
   | Raise _ => []
   end,
   Ld_init world_libc config_zero 1) =
  ([0], Some (Raise ZeroDivisionError)).
Proof. vm_compute. reflexivity. Qed.

(** ** Fuzzy name stripping *)

Section Strip.

Variable chars : string.

Lemma lstrip_all_in (s : string) : PyStr.all_in chars s = true -> PyStr.lstrip chars s = "".
Proof.
  induction s as [|c s IH]; simpl; [done|].
  destruct (PyStr.char_in c chars); simpl; [auto | discriminate].
Qed.

Lemma rstrip_all_in (s : string) : PyStr.all_in chars s = true -> PyStr.rstrip chars s = "".
Proof.
  induction s as [|c s IH]; simpl; [done|].
  destruct (PyStr.char_in c chars) eqn:Hc; simpl; [|discriminate].
  intros H. by rewrite (IH H).
Qed.

Lemma all_in_app (s t : string) :
  PyStr.all_in chars (s +:+ t) = PyStr.all_in chars s && PyStr.all_in chars t.
Proof.
  induction s as [|c s IH]; simpl; [done|].
  rewrite IH. by rewrite andb_assoc.
Qed.

Lemma lstrip_app (s t : string) :
  PyStr.lstrip chars (s +:+ t) =
  if PyStr.all_in chars s then PyStr.lstrip chars t else PyStr.lstrip chars s +:+ t.
Proof.
  induction s as [|c s IH]; simpl; [done|].
  destruct (PyStr.char_in c chars); simpl; done.
Qed.

Lemma rstrip_app_all_in (s t : string) :
  PyStr.all_in chars t = true -> PyStr.rstrip chars (s +:+ t) = PyStr.rstrip chars s.
Proof.
  intros Ht. induction s as [|c s IH]; simpl.
  - by apply rstrip_all_in.
  - by rewrite IH.
Qed.

Lemma lstrip_split (s : string) :
  exists pre, s = pre +:+ PyStr.lstrip chars s /\ PyStr.all_in chars pre = true.
Proof.
  induction s as [|c s [pre [E A]]]; simpl.
  - by exists "".
  - destruct (PyStr.char_in c chars) eqn:Hc.
    + exists (String c pre). simpl. rewrite Hc, A. split; [|done].
      change (String c s = String c (pre +:+ PyStr.lstrip chars s)). congruence.

    + by exists "".
Qed.

Lemma rstrip_split (s : string) :
  exists suf, s = PyStr.rstrip chars s +:+ suf /\ PyStr.all_in chars suf = true.
Proof.
  induction s as [|c s [suf [E A]]]; simpl.
  - by exists "".
  - destruct (PyStr.rstrip chars s) as [|d r] eqn:Hr.
    + change (s = suf) in E. subst suf. destruct (PyStr.char_in c chars) eqn:Hc.
      * exists (String c s). simpl. by rewrite Hc, A.
      * exists s. done.
    + exists suf. split; [|done].
      change (String c s = String c (String d r +:+ suf)). congruence.
Qed.

Lemma lstrip_first (s : string) : outside chars (first_char (PyStr.lstrip chars s)).
Proof.
  induction s as [|c s IH]; simpl; [done|].
  destruct (PyStr.char_in c chars) eqn:Hc; [done|]. simpl. done.
Qed.

Lemma rstrip_last (s : string) : outside chars (last_char (PyStr.rstrip chars s)).
Proof.
  induction s as [|c s IH]; simpl; [done|].
  destruct (PyStr.rstrip chars s) as [|d r] eqn:Hr.
  - destruct (PyStr.char_in c chars) eqn:Hc; simpl; done.
  - exact IH.
Qed.

Lemma rstrip_first (s : string) :
  outside chars (first_char s) -> outside chars (first_char (PyStr.rstrip chars s)).
Proof.
  destruct s as [|c s]; simpl; [done|]. intros Hc.
  destruct (PyStr.rstrip chars s); [by rewrite Hc | done].
Qed.

Lemma lstrip_outside (s : string) : outside chars (first_char s) -> PyStr.lstrip chars s = s.
Proof. destruct s as [|c s]; simpl; [done|]. by intros ->. Qed.

Lemma rstrip_idem (s : string) :
  PyStr.rstrip chars (PyStr.rstrip chars s) = PyStr.rstrip chars s.
Proof.
  induction s as [|c s IH]; simpl; [done|].
  destruct (PyStr.rstrip chars s) as [|d r] eqn:Hr.
  - destruct (PyStr.char_in c chars) eqn:Hc; simpl; [done | by rewrite Hc].
  - change (PyStr.rstrip chars (String c (String d r))) with
      (match PyStr.rstrip chars (String d r) with
       | EmptyString => if PyStr.char_in c chars then EmptyString else String c EmptyString
       | r' => String c r'
       end).
    by rewrite IH.
Qed.

Lemma strip_idem (s : string) :
  PyStr.strip chars (PyStr.strip chars s) = PyStr.strip chars s.
Proof.
  unfold PyStr.strip.
  rewrite (lstrip_outside (PyStr.rstrip chars (PyStr.lstrip chars s))).
  - apply rstrip_idem.
  - apply rstrip_first, lstrip_first.
Qed.

Lemma strip_app_all_in (s t : string) :
  PyStr.all_in chars t = true ->
  PyStr.strip chars (s +:+ t) = PyStr.strip chars s.
Proof.
  intros Ht. unfold PyStr.strip. rewrite lstrip_app.
  destruct (PyStr.all_in chars s) eqn:Hs.
  - by rewrite (lstrip_all_in t), (lstrip_all_in s).
  - by apply rstrip_app_all_in.
Qed.

Lemma strip_split (s : string) :
  exists pre suf,
    s = pre +:+ PyStr.strip chars s +:+ suf /\
    PyStr.all_in chars pre = true /\ PyStr.all_in chars suf = true.
Proof.
  destruct (lstrip_split s) as [pre [E1 A1]].
  destruct (rstrip_split (PyStr.lstrip chars s)) as [suf [E2 A2]].
  exists pre, suf. unfold PyStr.strip. by rewrite <- E2.
Qed.

End Strip.

(** C2 (as amended).  The fuzzy stripping is a function of the string
    alone which removes the leading and the trailing run of characters of
    [.0123456789] and leaves what lies between them unchanged: the result
    neither starts nor ends with such a character.  Two names that differ
    only in a trailing run of such characters strip to the same string,
    and stripping is idempotent. *)
Theorem fuzzy_strip_both_ends (s t u : string)
    (Ht : PyStr.all_in version_chars t = true)
    (Hu : PyStr.all_in version_chars u = true) :
  (exists pre suf,
      s = pre +:+ fuzzy_strip s +:+ suf /\
      PyStr.all_in version_chars pre = true /\
      PyStr.all_in version_chars suf = true /\
      outside version_chars (first_char (fuzzy_strip s)) /\
      outside version_chars (last_char (fuzzy_strip s))) /\
  fuzzy_strip (s +:+ t) = fuzzy_strip (s +:+ u) /\
  fuzzy_strip (fuzzy_strip s) = fuzzy_strip s.
Proof.
  unfold fuzzy_strip. split; [|split].
  - destruct (strip_split version_chars s) as (pre & suf & E & A1 & A2).
    exists pre, suf. repeat split; try assumption.
    + apply rstrip_first, lstrip_first.
    + apply rstrip_last.
  - by rewrite !strip_app_all_in.
  - apply strip_idem.
Qed.

Lemma fuzzy_strip_both_ends_witness :
  fuzzy_strip ("libc.so" +:+ ".6") = fuzzy_strip ("libc.so" +:+ ".0") /\
  fuzzy_strip (fuzzy_strip "libc.so") = fuzzy_strip "libc.so".
Proof.
  exact (proj2 (fuzzy_strip_both_ends "libc.so" ".6" ".0" eq_refl eq_refl)).
Defined.

(** C2 (as stated) fails: the stripping of [7z.so.1] is [z.so], which is
    not the name with only a trailing run taken off. *)
Lemma fuzzy_strip_not_only_trailing :
  fuzzy_strip "7z.so.1" = "z.so" /\
  ~ (exists suf, "7z.so.1" = fuzzy_strip "7z.so.1" +:+ suf).
Proof.
  split; [reflexivity|].
  intros [suf H]. vm_compute in H. discriminate H.
Qed.

(** ** Address queries *)

Lemma find_first {A : Type} (f : A -> bool) (l : list A) (x : A) :
  List.find f l = Some x <->
  exists i, l !! i = Some x /\ f x = true /\
            forall j y, (j < i)%nat -> l !! j = Some y -> f y = false.
Proof.
  induction l as [|a l IH]; simpl.
  - split; [discriminate|]. intros (i & H & _). by rewrite lookup_nil in H.
  - destruct (f a) eqn:Ha.
    + split.
      * intros [= ->]. exists 0%nat. repeat split; [done|]. intros j y Hj. lia.
      * intros (i & Hi & Hx & Hlt). destruct i as [|i]; [by simpl in Hi|].
        specialize (Hlt 0%nat a ltac:(lia) eq_refl). congruence.
    + rewrite IH. split.
      * intros (i & Hi & Hx & Hlt). exists (S i). repeat split; [done..|].
        intros [|j] y Hj Hy; simpl in Hy; [congruence|]. apply (Hlt j); [lia|done].
      * intros (i & Hi & Hx & Hlt). destruct i as [|i].
        { simpl in Hi. congruence. }
        exists i. repeat split; [done..|].
        intros j y Hj Hy. apply (Hlt (S j)); [lia|done].
Qed.

Lemma find_none {A : Type} (f : A -> bool) (l : list A) :
  List.find f l = None <-> forall x, x ∈ l -> f x = false.
Proof.
  induction l as [|a l IH]; simpl.
  - split; [|done]. intros _ x Hx. by apply elem_of_nil in Hx.
  - destruct (f a) eqn:Ha.
    + split; [discriminate|]. intros H. specialize (H a ltac:(left)). congruence.
    + rewrite IH. split.
      * intros H x Hx. apply elem_of_cons in Hx as [->|Hx]; auto.
      * intros H x Hx. apply H. by right.
Qed.

(** C10.  [addr_belongs_to_object] returns the first image in load order
    whose memory contains [addr - rebase_addr], and [None] when no image
    does; of two images that both contain the address the later one is
    never returned; and [addr_is_mapped] holds exactly when some loaded
    image contains the address. *)
Theorem addr_belongs_to_object_first (self : Ld) (addr : Z) :
  (forall obj,
      addr_belongs_to_object self addr = Some obj <->
      exists i, all_objects self !! i = Some obj /\ owns addr obj /\
                forall j o, (j < i)%nat -> all_objects self !! j = Some o -> ~ owns addr o) /\
  (addr_belongs_to_object self addr = None <->
   forall o, o ∈ all_objects self -> ~ owns addr o) /\
  (forall i j oi oj,
      (i < j)%nat -> all_objects self !! i = Some oi -> all_objects self !! j = Some oj ->
      owns addr oi -> owns addr oj ->
      exists k o, (k <= i)%nat /\ all_objects self !! k = Some o /\
                  addr_belongs_to_object self addr = Some o) /\
  (addr_is_mapped self addr = true <->
   exists o, o ∈ all_objects self /\ owns addr o).
Proof.
  unfold addr_is_mapped, addr_belongs_to_object, owns.
  set (f := fun obj => mem_contains (obj_memory obj) (addr - rebase_addr obj)).
  assert (Hnone : List.find f (all_objects self) = None <->
                  forall o, o ∈ all_objects self -> f o <> true).
  { rewrite find_none. split; intros H o Ho; specialize (H o Ho).
    - by rewrite H.
    - by destruct (f o). }
  split; [|split; [|split]].
  - intros obj. rewrite find_first. split.
    + intros (i & Hi & Hx & Hlt). exists i. repeat split; [done..|].
      intros j o Hj Ho. fold (f o). by rewrite (Hlt j o Hj Ho).
    + intros (i & Hi & Hx & Hlt). exists i. repeat split; [done..|].
      intros j o Hj Ho. specialize (Hlt j o Hj Ho). fold (f o) in Hlt. by destruct (f o).
  - exact Hnone.
  - intros i j oi oj Hij Hi Hj Hoi Hoj.
    destruct (List.find f (all_objects self)) as [o|] eqn:Hf.
    + apply (proj1 (find_first _ _ _)) in Hf as (k & Hk & Hx & Hlt).
      exists k, o. repeat split; [|done].
      destruct (decide (k <= i)%nat) as [|Hn]; [done|].
      specialize (Hlt i oi ltac:(lia) Hi). fold (f oi) in Hoi. congruence.
    + rewrite find_none in Hf. specialize (Hf oi).
      fold (f oi) in Hoi. rewrite Hf in Hoi; [discriminate|].
      apply list_elem_of_lookup. eauto.
  - destruct (List.find f (all_objects self)) as [o|] eqn:Hf.
    + split; [|done]. intros _. apply (proj1 (find_first _ _ _)) in Hf as (k & Hk & Hx & _).
      exists o. split; [|done]. apply list_elem_of_lookup. eauto.
    + split; [discriminate|]. intros (o & Ho & Hx).
      rewrite find_none in Hf. fold (f o) in Hx. rewrite (Hf o Ho) in Hx. discriminate.
Qed.

(** C9.  The code hands [isinstance] the class first and the owning image
    (or [None]) second, so [addr_is_ida_mapped] raises [TypeError] for
    every loader state and address, whatever the kind of the owning
    image. *)
Theorem addr_is_ida_mapped_raises (W : World) (self : Ld) (addr : Z) :
  addr_is_ida_mapped W self addr = Raise TypeError.
Proof.
  unfold addr_is_ida_mapped.
  destruct (addr_belongs_to_object self addr); reflexivity.
Qed.

(** ** Adding an image *)

Section AddObject.

Variable W : World.
Variable cfg : Config.

Lemma insert_last {A : Type} (l : list A) (x y : A) :
  <[List.length l := y]> (l ++ [x]) = l ++ [y].
Proof.
  rewrite insert_app_r_alt by lia. by rewrite Nat.sub_diag.
Qed.

Lemma safe_rebase_inv (self : Ld) (base : Z) :
  _get_safe_rebase_addr cfg self = OK base ->
  exists M,
    py_max (map (fun x => get_max_addr x + rebase_addr x) (all_objects self)) = OK M /\
    rebase_granularity cfg <> 0 /\
    base = M + (rebase_granularity cfg - M mod rebase_granularity cfg).
Proof.
  unfold _get_safe_rebase_addr, max_addr.
  destruct (py_max _) as [M|e]; simpl; [|discriminate].
  destruct (rebase_granularity cfg =? 0) eqn:HG; [discriminate|].
  intros [= <-]. exists M. repeat split. by apply Z.eqb_neq.
Qed.

(** What a successful [add_object] leaves behind. *)
Lemma add_object_inv (self self' : Ld) (obj : Obj) (base_addr : option Z) :
  add_object W cfg self obj base_addr = OK self' ->
  exists base obj',
    match base_addr with
    | Some b => base = b
    | None =>
        _get_safe_rebase_addr cfg (set_all_objects self (all_objects self ++ [obj])) = OK base
    end /\
    all_objects self' = all_objects self ++ [obj'] /\
    _unsatisfied_deps self' =
      (if auto_load_libs cfg then _unsatisfied_deps self ++ deps obj
       else _unsatisfied_deps self) /\
    requested_objects self' = requested_objects self ∪ list_to_set (deps obj) /\
    _satisfied_deps self' = satisfied_with cfg (_satisfied_deps self) obj /\
    main_bin self' = main_bin self /\
    shared_objects self' = shared_objects self /\
    fs_trace self' = fs_trace self /\
    ida_updates self' = ida_updates self /\
    if obj_isinstance W obj IdaBin
    then ida_rebase W obj base = OK obj' /\ memory self' = memory self
    else obj' = set_rebase_addr obj base /\
         exists m m', memory self = Some m /\
                      add_backer m base (obj_memory obj) = OK m' /\
                      memory self' = Some m'.
Proof.
  unfold add_object.
  set (s1 := if auto_load_libs cfg then _ else _).
  set (s2 := set_requested_objects s1 _).
  set (s3 := match provides obj with Some _ => _ | None => _ end).
  assert (H3 : all_objects s3 = all_objects self /\
               _unsatisfied_deps s3 =
                 (if auto_load_libs cfg then _unsatisfied_deps self ++ deps obj
                  else _unsatisfied_deps self) /\
               requested_objects s3 = requested_objects self ∪ list_to_set (deps obj) /\
               _satisfied_deps s3 = satisfied_with cfg (_satisfied_deps self) obj /\
               main_bin s3 = main_bin self /\ shared_objects s3 = shared_objects self /\
               fs_trace s3 = fs_trace self /\ ida_updates s3 = ida_updates self /\
               memory s3 = memory self).
  { unfold s3, s2, s1, satisfied_with.
    destruct (provides obj), (ignore_import_version_numbers cfg), (auto_load_libs cfg);
      simpl; repeat split; reflexivity. }
  destruct H3 as (Ha & Hq & Hr & Hs & Hm & Hso & Hf & Hu & Hmem).
  set (s4 := set_all_objects s3 _).
  assert (Hsafe : _get_safe_rebase_addr cfg s4 =
                  _get_safe_rebase_addr cfg (set_all_objects self (all_objects self ++ [obj]))).
  { unfold _get_safe_rebase_addr, max_addr, s4. simpl. by rewrite Ha. }
  destruct (match base_addr with Some b => OK b | None => _ end) as [base|e] eqn:Hb;
    simpl; [|discriminate].
  assert (Hbase : match base_addr with
                  | Some b => base = b
                  | None => _get_safe_rebase_addr cfg
                              (set_all_objects self (all_objects self ++ [obj])) = OK base
                  end).
  { destruct base_addr; [congruence|]. by rewrite <- Hsafe. }
  destruct (obj_isinstance W obj IdaBin) eqn:Hida.
  - destruct (ida_rebase W obj base) as [obj'|e] eqn:Hreb; simpl; [|discriminate].
    intros [= <-]. exists base, obj'. simpl. rewrite Ha, insert_last.
    repeat split; done.
  - destruct (memory s3) as [m|] eqn:Hm4; [|discriminate].
    destruct (add_backer m base (obj_memory obj)) as [m'|e] eqn:Hadd; simpl; [|discriminate].
    intros [= <-]. exists base, (set_rebase_addr obj base). simpl. rewrite Ha, insert_last.
    repeat split; try done.
    exists m, m'. repeat split; [|done]. by rewrite <- Hmem.
Qed.

End AddObject.

Lemma add_backer_inv (m m' : Clemory) (base : Z) (data : Mem) :
  add_backer m base data = OK m' -> backers m' = backers m ++ [(base, data)].
Proof.
  unfold add_backer. destruct (existsb _ _); [discriminate|]. by intros [= <-].
Qed.

(** C8 (as amended).  For every image that [add_object] accepts and that
    is not an [IdaBin], the pair (base, image memory) is registered as a
    backer of the loader's memory map and the chosen base is stored as the
    image's [rebase_addr]; the base is the caller's when one was given.
    For an [IdaBin] the base goes to the image's own [rebase] and the
    memory map is left as it was. *)
Theorem add_object_registers_backer (W : World) (cfg : Config) (self self' : Ld)
    (obj : Obj) (base_addr : option Z)
    (Hok : add_object W cfg self obj base_addr = OK self') :
  exists base obj',
    (forall b, base_addr = Some b -> base = b) /\
    all_objects self' = all_objects self ++ [obj'] /\
    if obj_isinstance W obj IdaBin
    then ida_rebase W obj base = OK obj' /\ memory self' = memory self
    else rebase_addr obj' = base /\
         obj_memory obj' = obj_memory obj /\
         exists m', memory self' = Some m' /\ (base, obj_memory obj) ∈ backers m'.
Proof.
  apply add_object_inv in Hok as (base & obj' & Hb & Hall & _ & _ & _ & _ & _ & _ & _ & Hk).
  exists base, obj'. split; [|split; [done|]].
  - intros b ->. done.
  - destruct (obj_isinstance W obj IdaBin); [done|].
    destruct Hk as (-> & m & m' & _ & Hadd & Hm'). repeat split.
    exists m'. split; [done|]. rewrite (add_backer_inv _ _ _ _ Hadd).
    apply elem_of_app. right. by apply list_elem_of_singleton.
Qed.

Lemma add_object_registers_backer_witness :
  exists m', memory after_libc_custom = Some m' /\
             (4096, obj_memory libc_elf) ∈ backers m'.
Proof.
  destruct (add_object_registers_backer world_libc config_libc
              after_main_libc after_libc_custom libc_elf (Some 4096))
    as (base & obj' & Hb & Hall & Hk).
  - vm_compute. reflexivity.
  - assert (E : obj_isinstance world_libc libc_elf IdaBin = false) by reflexivity.
    rewrite E in Hk. destruct Hk as (_ & _ & m' & Hm & Hin).
    rewrite (Hb 4096 eq_refl) in Hin. exists m'. split; assumption.
Defined.

(** C8 (as stated) fails for an [IdaBin] image: [add_object] accepts it,
    appends it to [all_objects], and the memory map has no backer for it. *)
Lemma add_object_ida_no_backer :
  add_object world_libc config_libc after_main_libc ida_image (Some 4096) = OK after_ida /\
  List.length (all_objects after_ida) = 2%nat /\
  memory after_ida = memory after_main_libc /\
  forall m, memory after_ida = Some m -> (4096, obj_memory ida_image) ∉ backers m.
Proof.
  split; [vm_compute; reflexivity|]. split; [reflexivity|]. split; [reflexivity|].
  intros m Hm. assert (E : memory after_ida = Some {| backers := [(0, obj_memory main_elf)] |})
    by reflexivity.
  rewrite E in Hm. injection Hm as <-. simpl.
  intros Hin. apply list_elem_of_singleton in Hin. discriminate Hin.
Qed.

(** ** Safe rebase addresses *)

Lemma fold_max_ge (l : list Z) (a : Z) :
  a <= fold_left Z.max l a /\ forall x, x ∈ l -> x <= fold_left Z.max l a.
Proof.
  revert a. induction l as [|y l IH]; intros a; simpl.
  - split; [lia|]. intros x Hx. by apply elem_of_nil in Hx.
  - destruct (IH (Z.max a y)) as [H1 H2]. split; [lia|].
    intros x Hx. apply elem_of_cons in Hx as [->|Hx]; [lia|auto].
Qed.

Lemma py_max_ge (l : list Z) (M : Z) :
  py_max l = OK M -> forall x, x ∈ l -> x <= M.
Proof.
  destruct l as [|a l]; simpl; [discriminate|]. intros [= <-] x Hx.
  destruct (fold_max_ge l a) as [H1 H2].
  apply elem_of_cons in Hx as [->|Hx]; auto.
Qed.

Lemma safe_base_aligned (M G : Z) :
  0 < G -> (M + (G - M mod G)) mod G = 0 /\ M < M + (G - M mod G).
Proof.
  intros HG. pose proof (Z.mod_pos_bound M G HG) as Hb. split; [|lia].
  replace (M + (G - M mod G)) with ((M / G + 1) * G).
  - apply Z.mod_mul. lia.
  - pose proof (Z.div_mod M G ltac:(lia)). lia.
Qed.

(** C3.  When an image is added without a base address, the base chosen
    is [M + (G - M mod G)], where [G] is the rebase granularity and [M]
    is [max_addr()] at that moment: the maximum of
    [get_max_addr() + rebase_addr] over the images loaded so far and the
    image being added (already in [all_objects], at the [rebase_addr] it
    came with).  For a positive [G] the base is a multiple of [G] and lies
    strictly above the highest address of every image added before; so the
    image's range at that base lies above theirs, and images whose ranges
    were pairwise disjoint stay so when the new image is stored at its
    base. *)
Theorem safe_rebase_aligned_above (W : World) (cfg : Config) (self self' : Ld) (obj : Obj)
    (HG : 0 < rebase_granularity cfg)
    (Hok : add_object W cfg self obj None = OK self') :
  exists M base obj',
    py_max (map (fun x => get_max_addr x + rebase_addr x) (all_objects self ++ [obj])) = OK M /\
    base = M + (rebase_granularity cfg - M mod rebase_granularity cfg) /\
    all_objects self' = all_objects self ++ [obj'] /\
    (if obj_isinstance W obj IdaBin then ida_rebase W obj base = OK obj'
     else obj' = set_rebase_addr obj base) /\
    base mod rebase_granularity cfg = 0 /\
    (forall o, o ∈ all_objects self -> occupied_hi o < base) /\
    (0 <= get_min_addr obj ->
     forall o, o ∈ all_objects self -> occupied_hi o < base + get_min_addr obj) /\
    (0 <= get_min_addr obj -> obj_isinstance W obj IdaBin = false ->
     pairwise_disjoint (all_objects self) -> pairwise_disjoint (all_objects self')).
Proof.
  apply add_object_inv in Hok as (base & obj' & Hb & Hall & _ & _ & _ & _ & _ & _ & _ & Hk).
  apply safe_rebase_inv in Hb as (M & HM & _ & Hbase). simpl in HM.
  destruct (safe_base_aligned M (rebase_granularity cfg) HG) as [Hmod Hgt].
  rewrite <- Hbase in Hmod, Hgt.
  assert (Hprev : forall o, o ∈ all_objects self -> occupied_hi o < base).
  { intros o Ho. pose proof (py_max_ge _ _ HM (get_max_addr o + rebase_addr o)) as Hle.
    unfold occupied_hi. enough (get_max_addr o + rebase_addr o <= M) by lia.
    apply Hle. apply (list_elem_of_fmap_2 (fun x => get_max_addr x + rebase_addr x)).
    apply elem_of_app. by left. }
  exists M, base, obj'. repeat split; try done.
  - destruct (obj_isinstance W obj IdaBin); tauto.
  - intros Hmin o Ho. specialize (Hprev o Ho). lia.
  - intros Hmin Hida Hpw. rewrite Hida in Hk. destruct Hk as [-> _].
    rewrite Hall. intros i j a b Hij Hi Hj.
    assert (Hnew : forall k o, (all_objects self ++ [set_rebase_addr obj base]) !! k = Some o ->
                   (k < List.length (all_objects self))%nat /\ all_objects self !! k = Some o \/
                   k = List.length (all_objects self) /\ o = set_rebase_addr obj base).
    { intros k o Hk. apply lookup_app_Some in Hk as [Hk|[Hle Hk]].
      - left. split; [|done]. by apply lookup_lt_Some in Hk.
      - right. apply list_lookup_singleton_Some in Hk as [Hz <-]. split; [lia|done]. }
    assert (Habove : forall o, o ∈ all_objects self ->
                     occupied_hi o < occupied_lo (set_rebase_addr obj base)).
    { intros o Ho. specialize (Hprev o Ho). unfold occupied_lo. simpl. lia. }
    destruct (Hnew i a Hi) as [[Hil Hia]|[-> ->]], (Hnew j b Hj) as [[Hjl Hjb]|[-> ->]].
    + by apply (Hpw i j).
    + left. apply Habove. apply list_elem_of_lookup. eauto.
    + right. apply Habove. apply list_elem_of_lookup. eauto.
    + done.
Qed.

Lemma safe_rebase_aligned_above_witness :
  exists base obj',
    all_objects after_libc_safe = all_objects after_main_libc ++ [obj'] /\
    base mod 256 = 0 /\
    forall o, o ∈ all_objects after_main_libc -> occupied_hi o < base.
Proof.
  destruct (safe_rebase_aligned_above world_libc config_libc
              after_main_libc after_libc_safe libc_elf)
    as (M & base & obj' & HM & Hbase & Hall & Hk & Hmod & Hprev & _).
  - reflexivity.
  - vm_compute. reflexivity.
  - exists base, obj'. split; [exact Hall|]. split; [exact Hmod | exact Hprev].
Defined.

(** C3, counterexample.  With a rebase granularity of -256 and the main
    binary at 1000, its highest address 1015, the library that is added
    without a base address is given [1015 + (-256 - 1015 mod -256) = 768]:
    a multiple of the granularity, but below the main binary and not
    above it.  The construction returns with the two images at 1000 and
    768. *)
Lemma safe_rebase_negative_below :
  exists self main lib,
    add_object world_libc config_negative_high after_main_high (set_cls libc_elf ELF) None
      = OK self /\
    all_objects after_main_high = [main] /\
    all_objects self = [main; lib] /\
    max_addr after_main_high = OK 1015 /\
    rebase_addr lib = 1015 + (-256 - 1015 mod -256) /\
    rebase_addr lib mod -256 = 0 /\
    occupied_hi main = 1015 /\
    rebase_addr lib = 768 /\
    occupied_hi lib < occupied_lo main /\
    match Ld_init world_libc config_negative_high 1 with
    | Some (OK final) => map rebase_addr (all_objects final)
    | _ => []
    end = [1000; 768].
Proof.
  eexists _, _, _. split; [vm_compute; reflexivity|].
  split; [vm_compute; reflexivity|].
  split; [vm_compute; reflexivity|].
  repeat split; vm_compute; reflexivity.
Qed.

(** ** The order of the path search *)

Section ResolvePath.

Variable W : World.
Variable cfg : Config.
Variable main_arch : Arch.

Lemma probes_fail_nil : probes_fail W main_arch [].
Proof. intros q Hq. by apply elem_of_nil in Hq. Qed.

Lemma probes_fail_cons_check (q : string) (t : list FsEvent) :
  _check_lib W main_arch q = false -> probes_fail W main_arch t ->
  probes_fail W main_arch (EvCheckLib q :: t).
Proof.
  intros Hq Ht q' Hin. apply elem_of_cons in Hin as [[= ->]|Hin]; auto.
Qed.

Lemma probes_fail_cons_listdir (d : string) (t : list FsEvent) :
  probes_fail W main_arch t -> probes_fail W main_arch (EvListdir d :: t).
Proof.
  intros Ht q' Hin. apply elem_of_cons in Hin as [Hin|Hin]; [discriminate|auto].
Qed.

Lemma probes_fail_app (t1 t2 : list FsEvent) :
  probes_fail W main_arch t1 -> probes_fail W main_arch t2 ->
  probes_fail W main_arch (t1 ++ t2).
Proof.
  intros H1 H2 q Hin. apply elem_of_app in Hin as [Hin|Hin]; auto.
Qed.

Lemma scan_listing_spec (libdir path : string) (listing : list string) :
  exists cands,
    (scan_listing W main_arch libdir path listing).1 =
      map (fun c => EvCheckLib (PyStr.join libdir c)) cands /\
    cands `sublist_of` listing /\
    Forall (fun c => fuzzy_strip c = fuzzy_strip path) cands /\
    search_outcome W main_arch (scan_listing W main_arch libdir path listing).
Proof.
  induction listing as [|libname listing (cands & Ht & Hsub & Hall & Hout)]; simpl.
  - exists []. repeat split; [done..|]. apply probes_fail_nil.
  - destruct (String.eqb (fuzzy_strip libname) (fuzzy_strip path)) eqn:Heq.
    + apply String.eqb_eq in Heq.
      destruct (_check_lib W main_arch (PyStr.join libdir libname)) eqn:Hchk.
      * exists [libname]. repeat split; simpl.
        -- apply sublist_skip, sublist_nil_l.
        -- by constructor.
        -- exists [], (PyStr.join libdir libname). repeat split; [|done].
           apply probes_fail_nil.
      * exists (libname :: cands). simpl. repeat split.
        -- by rewrite Ht.
        -- by apply sublist_skip.
        -- by constructor.
        -- unfold search_outcome in *. simpl.
           destruct ((scan_listing W main_arch libdir path listing).2) as [p|].
           ++ destruct Hout as (t & q & Et & Hf & Hq & Hp).
              exists (EvCheckLib (PyStr.join libdir libname) :: t), q.
              rewrite Et. repeat split; [|done..]. by apply probes_fail_cons_check.
           ++ by apply probes_fail_cons_check.
    + exists cands. repeat split; [done| |done..]. by apply sublist_cons.
Qed.

Lemma search_dirs_spec (path : string) (dirs : list string) :
  exists k blocks,
    (search_dirs W cfg main_arch path dirs).1 = List.concat blocks /\
    Forall2 (dir_block W cfg main_arch path) (take k dirs) blocks /\
    search_outcome W main_arch (search_dirs W cfg main_arch path dirs) /\
    ((search_dirs W cfg main_arch path dirs).2 = None -> k = List.length dirs).
Proof.
  induction dirs as [|libdir dirs (k & blocks & Ht & Hb & Hout & Hk)]; simpl.
  - exists 0%nat, []. repeat split; [constructor|]. apply probes_fail_nil.
  - destruct (_check_lib W main_arch (PyStr.join libdir path)) eqn:Hchk.
    + exists 1%nat, [[EvCheckLib (PyStr.join libdir path)]]. simpl. repeat split.
      * rewrite take_0. repeat constructor.
      * exists [], (PyStr.join libdir path). repeat split; [|done]. apply probes_fail_nil.
      * discriminate.
    + destruct (ignore_import_version_numbers cfg) eqn:Hfz.
      * destruct (scan_listing_spec libdir path (default [] (listdir W libdir)))
          as (cands & Hst & Hsub & Hall & Hsout).
        set (sc := scan_listing W main_arch libdir path (default [] (listdir W libdir))) in *.
        assert (Hblock : dir_block W cfg main_arch path libdir
                  (EvCheckLib (PyStr.join libdir path) :: EvListdir libdir :: sc.1)).
        { right. repeat split; [done..|]. exists cands. by rewrite Hst. }
        unfold search_outcome in Hsout.
        destruct (sc.2) as [found|] eqn:Hfound.
        -- exists 1%nat, [EvCheckLib (PyStr.join libdir path) :: EvListdir libdir :: sc.1].
           simpl. rewrite take_0, app_nil_r. repeat split.
           ++ constructor; [exact Hblock | constructor].
           ++ unfold search_outcome. simpl.
              destruct Hsout as (t & q & Et & Hf & Hq & Hp).
              exists (EvCheckLib (PyStr.join libdir path) :: EvListdir libdir :: t), q.
              rewrite Et. repeat split; [|done..].
              by apply probes_fail_cons_check, probes_fail_cons_listdir.
           ++ discriminate.
        -- exists (S k), ((EvCheckLib (PyStr.join libdir path) :: EvListdir libdir :: sc.1)
                          :: blocks).
           simpl. repeat split.
           ++ by rewrite Ht.
           ++ constructor; [exact Hblock | exact Hb].
           ++ unfold search_outcome in *. simpl.
              destruct ((search_dirs W cfg main_arch path dirs).2) as [p|].
              ** destruct Hout as (t & q & Et & Hf & Hq & Hp).
                 exists (EvCheckLib (PyStr.join libdir path) :: EvListdir libdir :: sc.1 ++ t), q.
                 rewrite Et. repeat split; [simpl; by rewrite app_assoc| |done..].
                 by apply probes_fail_cons_check, probes_fail_cons_listdir, probes_fail_app.
              ** by apply probes_fail_cons_check, probes_fail_cons_listdir, probes_fail_app.
           ++ intros Hn. by rewrite (Hk Hn).
      * exists (S k), ([EvCheckLib (PyStr.join libdir path)] :: blocks). simpl. repeat split.
        -- by rewrite Ht.
        -- constructor; [by left|done].
        -- unfold search_outcome in *. simpl.
           destruct ((search_dirs W cfg main_arch path dirs).2) as [p|].
           ++ destruct Hout as (t & q & Et & Hf & Hq & Hp).
              exists (EvCheckLib (PyStr.join libdir path) :: t), q.
              rewrite Et. repeat split; [|done..]. by apply probes_fail_cons_check.
           ++ by apply probes_fail_cons_check.
        -- intros Hn. by rewrite (Hk Hn).
Qed.

(** A directory whose direct concatenation [_check_lib] accepts is
    probed with that one call. *)
Lemma search_dirs_direct_hit (path libdir : string) (dirs : list string) :
  _check_lib W main_arch (PyStr.join libdir path) = true ->
  search_dirs W cfg main_arch path (libdir :: dirs) =
    ([EvCheckLib (PyStr.join libdir path)], Some (realpath W (PyStr.join libdir path))).
Proof. simpl. by intros ->. Qed.

End ResolvePath.

(** C6.  For a name without a path separator, [_resolve_path] probes the
    directories of [custom_ld_path], then [.], then the directory of the
    main binary, then the architecture's default library paths, in this
    order and stopping at the first probe [_check_lib] accepts: the calls
    it makes are, directory after directory along a prefix of that list,
    the direct concatenation first and the fuzzy enumeration of the
    directory only after the direct concatenation was turned down.  A
    directory reached whose direct concatenation is accepted ends the
    search with the real path of that concatenation. *)
Theorem resolve_path_probe_order (W : World) (cfg : Config) (self : Ld) (path : string)
    (r : list FsEvent * option string)
    (Hsep : PyStr.has_sep path = false)
    (Hr : _resolve_path W cfg self path = OK r) :
  exists mb k blocks,
    the_main_bin self = OK mb /\
    let dirs := _custom_ld_path cfg
                ++ ["."; PyStr.dirname (_main_binary_path W cfg)]
                ++ library_search_path W (arch mb) in
    r.1 = List.concat blocks /\
    Forall2 (dir_block W cfg (arch mb) path) (take k dirs) blocks /\
    search_outcome W (arch mb) r /\
    (r.2 = None -> k = List.length dirs) /\
    (forall i d b,
        take k dirs !! i = Some d -> blocks !! i = Some b ->
        _check_lib W (arch mb) (PyStr.join d path) = true ->
        b = [EvCheckLib (PyStr.join d path)] /\
        r.2 = Some (realpath W (PyStr.join d path))).
Proof.
  unfold _resolve_path in Hr. rewrite Hsep in Hr.
  destruct (the_main_bin self) as [mb|e] eqn:Hmb; simpl in Hr; [|discriminate].
  injection Hr as <-.
  destruct (search_dirs_spec W cfg (arch mb) path (search_list W cfg (arch mb)))
    as (k & blocks & Ht & Hb & Hout & Hk).
  exists mb, k, blocks. split; [done|]. cbv zeta.
  change (_custom_ld_path cfg ++ ["."; PyStr.dirname (_main_binary_path W cfg)]
          ++ library_search_path W (arch mb)) with (search_list W cfg (arch mb)).
  set (r := search_dirs W cfg (arch mb) path (search_list W cfg (arch mb))) in *.
  split; [exact Ht|]. split; [exact Hb|]. split; [exact Hout|]. split; [exact Hk|].
  intros i d b Hd Hbi Hchk.
  assert (Hbd : b = [EvCheckLib (PyStr.join d path)]).
    { destruct (Forall2_lookup_lr _ _ _ _ _ _ Hb Hd Hbi) as [->|(Hno & _)]; [done|congruence]. }
    assert (Hin : EvCheckLib (PyStr.join d path) ∈ r.1).
  { rewrite Ht. apply list_elem_of_In, in_concat. exists b. split.
    - apply list_elem_of_In, list_elem_of_lookup. eauto.
    - rewrite Hbd. by left. }
    unfold search_outcome in Hout. destruct (r.2) as [p|].
    + destruct Hout as (t & q & Et & Hf & Hq & ->). rewrite Et in Hin.
      apply elem_of_app in Hin as [Hin|Hin].
      * rewrite (Hf _ Hin) in Hchk. discriminate.
      * apply list_elem_of_singleton in Hin. injection Hin as Hin. rewrite Hin. split; [by rewrite <- Hin | done].
    + rewrite (Hout _ Hin) in Hchk. discriminate.
Qed.

Lemma resolve_path_probe_order_witness :
  exists mb, the_main_bin after_main_libc = OK mb /\
             search_outcome world_libc (arch mb) resolved_libc.
Proof.
  destruct (resolve_path_probe_order world_libc config_libc after_main_libc
              "libc.so.6" resolved_libc eq_refl)
    as (mb & k & blocks & Hmb & H).
  - vm_compute. reflexivity.
  - exists mb. split; [exact Hmb|]. cbv zeta in H. exact (proj1 (proj2 (proj2 H))).
Defined.

(** ** The dependency loop *)

Section Loop.

Variable W : World.
Variable cfg : Config.

Lemma already_satisfied_false (self : Ld) (dep : string) :
  already_satisfied cfg self dep = false ->
  bool_decide (PyStr.basename dep ∈ _satisfied_deps self) = false /\
  ignore_import_version_numbers cfg
    && bool_decide (fuzzy_strip dep ∈ _satisfied_deps self) = false.
Proof. unfold already_satisfied. intros H. by apply orb_false_elim in H. Qed.

Lemma load_dependency_satisfied (self : Ld) (dep : string) :
  already_satisfied cfg self dep = true -> load_dependency W cfg self dep = OK self.
Proof.
  unfold already_satisfied, load_dependency. intros H.
  destruct (bool_decide (PyStr.basename dep ∈ _satisfied_deps self)); [done|].
  simpl in H. by rewrite H.
Qed.

Lemma load_dependency_inv (self self' : Ld) (dep : string) :
  load_dependency W cfg self dep = OK self' -> turn W cfg self dep self'.
Proof.
  intros H. destruct (already_satisfied cfg self dep) eqn:Hsat.
  { rewrite (load_dependency_satisfied _ _ Hsat) in H. injection H as <-.
    by apply turn_skip. }
  destruct (already_satisfied_false _ _ Hsat) as [H1 H2].
  unfold load_dependency in H. rewrite H1, H2 in H.
  destruct (_resolve_path W cfg self dep) as [r|e] eqn:Hr; simpl in H; [|discriminate].
  destruct (not_path r.2) eqn:Hnp.
  - destruct (except_missing_libs cfg) eqn:Hex; [discriminate|].
    injection H as <-. by eapply turn_drop.
  - destruct (r.2) as [path|] eqn:Hp; [|discriminate]. simpl in H.
    destruct (load_object W path _) as [obj|e] eqn:Hlo; simpl in H; [|discriminate].
    destruct (add_object W cfg _ obj _) as [s1|e] eqn:Hadd; simpl in H; [|discriminate].
    pose proof (add_object_inv _ _ _ _ _ _ Hadd) as (base & obj' & _ & Hall & _).
    simpl in Hall. rewrite Hall in H.
    rewrite lookup_app_r in H by lia. rewrite Nat.sub_diag in H. simpl in H.
    injection H as <-. by eapply turn_load.
Qed.

(** From a state the loop passes through, the loop goes on as it does
    from the start, a number of turns later. *)
Lemma loops_to_fuel (start self : Ld) :
  loops_to W cfg start self ->
  exists n, forall fuel,
    _load_dependencies W cfg (n + fuel) start = _load_dependencies W cfg fuel self.
Proof.
  induction 1 as [|self self' dep rest _ [n IH] Hq Hld].
  - by exists 0%nat.
  - exists (S n). intros fuel.
    replace (S n + fuel)%nat with (n + S fuel)%nat by lia.
    rewrite IH. simpl. by rewrite Hq, Hld.
Qed.

(** A loop that returns went through its final state. *)
Lemma load_dependencies_loops (fuel : nat) (start final : Ld) :
  _load_dependencies W cfg fuel start = Some (OK final) ->
  loops_to W cfg start final /\ _unsatisfied_deps final = [].
Proof.
  revert start. induction fuel as [|fuel IH]; intros start; simpl.
  - destruct (_unsatisfied_deps start) eqn:Hq; [|discriminate].
    intros [= <-]. split; [constructor | done].
  - destruct (_unsatisfied_deps start) as [|dep rest] eqn:Hq.
    + intros [= <-]. split; [constructor | done].
    + destruct (load_dependency W cfg _ dep) as [s1|e] eqn:Hld; [|discriminate].
      intros Hf.
      assert (Hgen : forall mid, loops_to W cfg s1 mid -> loops_to W cfg start mid).
      { induction 1 as [|a b d rs _ IHl Hq' Hld']; [|by eapply loops_turn].
        eapply loops_turn; [constructor|done..]. }
      destruct (IH _ Hf) as [Hl He]. split; [|done]. by apply Hgen.
Qed.

End Loop.

(** ** Invariants of the loop and of the relocation pass *)

Section Invariants.

Variable W : World.
Variable cfg : Config.

Lemma turn_main_bin (self self' : Ld) (dep : string) :
  turn W cfg self dep self' -> main_bin self' = main_bin self.
Proof.
  intros [? ->|r ? ? ? ? ->|r path obj obj' s1 ? ? ? ? Hadd ? ->]; simpl; try done.
  apply add_object_inv in Hadd as (base & o' & _ & _ & _ & _ & _ & Hm & _). by rewrite Hm.
Qed.

Lemma turn_all_objects (self self' : Ld) (dep : string) :
  turn W cfg self dep self' ->
  all_objects self' = all_objects self \/
  exists obj', all_objects self' = all_objects self ++ [obj'].
Proof.
  intros [? ->|r ? ? ? ? ->|r path obj obj' s1 ? ? ? ? Hadd Hall ->]; simpl; eauto.
Qed.

Lemma loops_to_main_bin (start self : Ld) :
  loops_to W cfg start self ->
  main_bin self = main_bin start /\
  exists more, all_objects self = all_objects start ++ more.
Proof.
  induction 1 as [|self self' dep rest _ [IHm [more IHa]] Hq Hld].
  - split; [done|]. exists []. by rewrite app_nil_r.
  - apply load_dependency_inv in Hld.
    rewrite (turn_main_bin _ _ _ Hld). split; [done|].
    destruct (turn_all_objects _ _ _ Hld) as [Ha|[obj' Ha]]; simpl in Ha.
    + exists more. by rewrite Ha.
    + exists (more ++ [obj']). by rewrite Ha, IHa, app_assoc.
Qed.

Lemma load_main_binary_inv (self : Ld) :
  _load_main_binary W cfg (initial cfg) = OK self ->
  main_bin self = Some 0%nat /\ exists mb, all_objects self = [mb].
Proof.
  unfold _load_main_binary.
  destruct (load_object W _ _) as [mb|e]; simpl; [|discriminate].
  intros Hadd.
  apply add_object_inv in Hadd as (base & o' & _ & Hall & _ & _ & _ & Hm & _).
  simpl in Hall, Hm. eauto.
Qed.

(** A loop body that hands its state on unchanged. *)
Lemma for_each_same {A S : Type} (f : S -> A -> result unit) (l : list A) (s s' : S) :
  for_each (fun s x => _ ← f s x; OK s) l s = OK s' -> s' = s.
Proof.
  induction l as [|x l IH]; simpl; [by intros [= <-]|].
  destruct (f s x); simpl; [auto | discriminate].
Qed.

Lemma resolve_imports_ida_inv (self self' : Ld) (i : nat) (b : Obj) :
  _resolve_imports_ida self i b = OK self' ->
  all_objects self' = all_objects self /\ main_bin self' = main_bin self /\
  memory self' = memory self /\ shared_objects self' = shared_objects self.
Proof.
  unfold _resolve_imports_ida.
  destruct (_all_so_exports self) as [so|e]; simpl; [|discriminate].
  intros [= <-]. generalize (imports b). intros l. revert self.
  induction l as [|imp l IH]; intros self; simpl; [done|].
  destruct (IH (match resolve_import b so imp.1 with
                | Some newaddr => set_ida_updates self (ida_updates self ++ [(i, imp.2, newaddr)])
                | None => self
                end)) as (H1 & H2 & H3 & H4).
  rewrite H1, H2, H3, H4. by destruct (resolve_import b so imp.1).
Qed.

Lemma reloc_object_inv (self self' : Ld) (i : nat) (obj : Obj) :
  reloc_object W self i obj = OK self' ->
  all_objects self' = <[i := set_tls_module_id obj i]> (all_objects self) /\
  main_bin self' = main_bin self /\ memory self' = memory self /\
  shared_objects self' = shared_objects self.
Proof.
  unfold reloc_object.
  destruct (obj_isinstance W (set_tls_module_id obj i) IdaBin).
  { intros H. by apply resolve_imports_ida_inv in H. }
  destruct (obj_isinstance W (set_tls_module_id obj i) Pe).
  { by intros [= <-]. }
  destruct (obj_isinstance W (set_tls_module_id obj i) MetaELF).
  - intros H.
    apply (for_each_same (fun s reloc => relocate W reloc (all_objects s))) in H. by subst.
  - by intros [= <-].
Qed.

Lemma perform_reloc_from_inv (n i : nat) (self self' : Ld) :
  perform_reloc_from W n i self = OK self' ->
  main_bin self' = main_bin self /\ memory self' = memory self /\
  shared_objects self' = shared_objects self /\
  List.length (all_objects self') = List.length (all_objects self) /\
  forall j o, all_objects self' !! j = Some o ->
    ((i <= j < i + n)%nat -> tls_module_id o = Some j) /\
    (~ (i <= j < i + n)%nat -> all_objects self !! j = Some o).
Proof.
  revert i self. induction n as [|n IH]; intros i self; simpl.
  - intros [= <-]. repeat split; [lia|done].
  - destruct (all_objects self !! i) as [obj|] eqn:Hi.
    + destruct (reloc_object W self i obj) as [s1|e] eqn:Hro; simpl; [|discriminate].
      intros H. apply IH in H as (Hm & Hmem & Hso & Hlen & Hall).
      apply reloc_object_inv in Hro as (Ha1 & Hm1 & Hmem1 & Hso1).
      rewrite Hm, Hmem, Hso, Hlen, Ha1, length_insert. repeat split; try done.
      * intros Hr. destruct (decide (j = i)) as [->|Hne].
        -- destruct (Hall i o H) as [_ Hout]. rewrite Ha1 in Hout.
           rewrite list_lookup_insert_eq in Hout by (by apply lookup_lt_Some in Hi).
           specialize (Hout ltac:(lia)). by injection Hout as <-.
        -- apply (Hall j o H). lia.
      * intros Hr. destruct (Hall j o H) as [_ Hout]. rewrite Ha1 in Hout.
        rewrite list_lookup_insert_ne in Hout by lia. apply Hout. lia.
    + intros [= <-]. repeat split; [|done].
      intros Hr. apply lookup_lt_Some in H. apply lookup_ge_None in Hi. lia.
Qed.

Lemma ida_sync_mem_inv (self self' : Ld) :
  ida_sync_mem W self = OK self' ->
  all_objects self' = all_objects self /\ main_bin self' = main_bin self.
Proof.
  unfold ida_sync_mem. generalize (filter (fun i => obj_isinstance W i IdaBin = true)
                                          (all_objects self)).
  intros l. revert self. induction l as [|o l IH]; intros self; simpl.
  - by intros [= <-].
  - destruct (memory self) as [m|]; simpl; [|discriminate].
    destruct (update_backer m (rebase_addr o) (obj_memory o)) as [m'|e]; simpl; [|discriminate].
    intros H. apply IH in H as [-> ->]. done.
Qed.

(** What a construction that returns went through. *)
Lemma Ld_init_inv (fuel : nat) (self : Ld) :
  Ld_init W cfg fuel = Some (OK self) ->
  exists s0 s1 s2,
    _load_main_binary W cfg (initial cfg) = OK s0 /\
    loops_to W cfg s0 s1 /\ _unsatisfied_deps s1 = [] /\
    _perform_reloc W s1 = OK s2 /\
    all_objects self = all_objects s2 /\ main_bin self = main_bin s2.
Proof.
  unfold Ld_init.
  destruct (_load_main_binary W cfg (initial cfg)) as [s0|e]; [|discriminate].
  destruct (_load_dependencies W cfg fuel s0) as [[s1|e]|] eqn:Hl; [|discriminate..].
  apply load_dependencies_loops in Hl as [Hl Hq].
  destruct (_perform_reloc W s1) as [s2|e] eqn:Hp; simpl; [|discriminate].
  intros H. exists s0, s1, s2. repeat split; try done.
  - destruct (the_main_bin s2) as [mb|e]; simpl in H; [|discriminate].
    destruct (obj_isinstance W mb IdaBin); [|by injection H as <-].
    injection H as H. by apply ida_sync_mem_inv in H as [-> _].
  - destruct (the_main_bin s2) as [mb|e]; simpl in H; [|discriminate].
    destruct (obj_isinstance W mb IdaBin); [|by injection H as <-].
    injection H as H. by apply ida_sync_mem_inv in H as [_ ->].
Qed.

End Invariants.

(** C7.  After a construction that returns, the image at position [i] of
    [all_objects] (the load order) has [tls_module_id = i]: the ids are
    [0, 1, ..., n - 1] for the [n] loaded images, and the main image, the
    first of the list, has id 0. *)
Theorem tls_module_ids_in_load_order (W : World) (cfg : Config) (fuel : nat) (self : Ld)
    (Hinit : Ld_init W cfg fuel = Some (OK self)) :
  map tls_module_id (all_objects self) =
    map Some (seq 0 (List.length (all_objects self))) /\
  main_bin self = Some 0%nat /\
  exists mb, the_main_bin self = OK mb /\ tls_module_id mb = Some 0%nat.
Proof.
  apply Ld_init_inv in Hinit as (s0 & s1 & s2 & H0 & Hl & _ & Hp & Ha & Hm).
  apply load_main_binary_inv in H0 as [Hm0 [mb0 Ha0]].
  apply loops_to_main_bin in Hl as [Hm1 [more Ha1]].
  apply perform_reloc_from_inv in Hp as (Hm2 & _ & _ & Hlen & Hall).
  assert (Htls : forall j o, all_objects self !! j = Some o -> tls_module_id o = Some j).
  { intros j o Hj. rewrite Ha in Hj. apply (Hall j o Hj).
    apply lookup_lt_Some in Hj. lia. }
  assert (Hmain : main_bin self = Some 0%nat) by congruence.
  split; [|split; [done|]].
  - apply list_eq. intros j. rewrite !list_lookup_fmap.
    destruct (all_objects self !! j) as [o|] eqn:Hj; simpl.
    + rewrite (Htls j o Hj). pose proof (lookup_lt_Some _ _ _ Hj) as Hlt.
      rewrite lookup_seq_lt by done. done.
    + apply lookup_ge_None in Hj. rewrite lookup_seq_ge by done. done.
  - assert (Hne : exists mb, all_objects self !! 0%nat = Some mb).
    { apply lookup_lt_is_Some. rewrite Ha, Hlen, Ha1, Ha0. simpl. lia. }
    destruct Hne as [mb Hmb]. exists mb. unfold the_main_bin. rewrite Hmain, Hmb.
    split; [done|]. by apply Htls.
Qed.

Lemma tls_module_ids_in_load_order_witness :
  map tls_module_id (all_objects (constructed world_libc config_libc 2)) =
    map Some (seq 0 (List.length (all_objects (constructed world_libc config_libc 2)))).
Proof.
  refine (proj1 (tls_module_ids_in_load_order world_libc config_libc 2
                   (constructed world_libc config_libc 2) _)).
  vm_compute. reflexivity.
Defined.

(** ** Missing dependencies *)

Section Requested.

Variable W : World.
Variable cfg : Config.

(** [IdaBin.rebase] leaves the declared dependencies of the image alone. *)
Hypothesis ida_rebase_deps :
  forall o b o', ida_rebase W o b = OK o' -> deps o' = deps o.

Lemma load_object_deps (path : string) (options : Options) (obj : Obj) :
  load_object W path options = OK obj ->
  exists c o, backend_new W c path options = OK o /\ obj = set_cls o c.
Proof.
  unfold load_object.
  destruct (default (Some "elf") (opt_backend options)) as [backend|]; [|discriminate].
  repeat (match goal with
          | |- context [if ?b then _ else _] => destruct b
          end;
          [destruct (backend_new W _ path options) as [o|e] eqn:Hb; simpl;
           [intros [= <-]; eauto | discriminate]|]).
  discriminate.
Qed.

Lemma add_object_deps_requested (self self' : Ld) (obj : Obj) (base_addr : option Z) :
  deps_requested self ->
  add_object W cfg self obj base_addr = OK self' ->
  deps_requested self'.
Proof.
  intros Hinv Hadd.
  apply add_object_inv in Hadd
    as (base & obj' & _ & Hall & _ & Hreq & _ & _ & _ & _ & _ & Hk).
  assert (Hd : deps obj' = deps obj).
  { destruct (obj_isinstance W obj IdaBin).
    - destruct Hk as [Hreb _]. by apply ida_rebase_deps in Hreb.
    - by destruct Hk as [-> _]. }
  intros o Ho d Hdo. rewrite Hreq. rewrite Hall in Ho.
  apply elem_of_app in Ho as [Ho|Ho].
  - apply elem_of_union. left. by apply (Hinv o).
  - apply list_elem_of_singleton in Ho as ->. rewrite Hd in Hdo.
    apply elem_of_union. right. by apply elem_of_list_to_set.
Qed.

Lemma turn_deps_requested (self self' : Ld) (dep : string) :
  deps_requested self -> turn W cfg self dep self' -> deps_requested self'.
Proof.
  intros Hinv [? ->|r ? ? ? ? ->|r path obj obj' s1 ? ? ? ? Hadd ? ->]; try done.
  apply add_object_deps_requested in Hadd; done.
Qed.

Lemma loops_to_deps_requested (start self : Ld) :
  deps_requested start -> loops_to W cfg start self -> deps_requested self.
Proof.
  intros H0. induction 1 as [|self self' dep rest _ IH Hq Hld]; [done|].
  apply load_dependency_inv in Hld. exact (turn_deps_requested (set_unsatisfied_deps self rest) _ _ IH Hld).
Qed.

Lemma load_main_binary_deps_requested (self : Ld) :
  _load_main_binary W cfg (initial cfg) = OK self -> deps_requested self.
Proof.
  unfold _load_main_binary.
  destruct (load_object W _ _) as [mb|e]; simpl; [|discriminate].
  apply add_object_deps_requested. intros o Ho. simpl in Ho. by apply elem_of_nil in Ho.
Qed.

End Requested.

(** C4 (as amended).  When the loop pops a name that is not already
    satisfied and for which [_resolve_path] finds no path: with
    [except_missing_libs] the turn raises a [CLException] that names the
    dependency, and so does the construction; without it the turn raises
    nothing, the loop goes on with the rest of the queue, no image is
    added and nothing else of the loader changes, and the name is in
    [requested_objects] whenever a loaded image declares it, because the
    declared dependencies of every loaded image are in
    [requested_objects], whatever [auto_load_libs] says and however their
    resolution ends.  (A name that is in the queue only through
    [force_load_libs] is not recorded.) *)
Theorem missing_dependency_policy (W : World) (cfg : Config) (s0 self : Ld)
    (dep : string) (rest : list string) (r : list FsEvent * option string)
    (Hida : forall o b o', ida_rebase W o b = OK o' -> deps o' = deps o)
    (Hmain : _load_main_binary W cfg (initial cfg) = OK s0)
    (Hloop : loops_to W cfg s0 self)
    (Hq : _unsatisfied_deps self = dep :: rest)
    (Hsat : already_satisfied cfg self dep = false)
    (Hr : _resolve_path W cfg self dep = OK r)
    (Hnp : not_path r.2 = true) :
  (except_missing_libs cfg = true ->
   load_dependency W cfg (set_unsatisfied_deps self rest) dep =
     Raise (CLException ("Could not find shared library: " +:+ dep)) /\
   exists n, forall fuel,
     Ld_init W cfg (S n + fuel) =
       Some (Raise (CLException ("Could not find shared library: " +:+ dep)))) /\
  (except_missing_libs cfg = false ->
   exists self',
     load_dependency W cfg (set_unsatisfied_deps self rest) dep = OK self' /\
     (forall fuel, _load_dependencies W cfg (S fuel) self = _load_dependencies W cfg fuel self') /\
     _unsatisfied_deps self' = rest /\
     all_objects self' = all_objects self /\
     shared_objects self' = shared_objects self /\
     memory self' = memory self /\
     _satisfied_deps self' = _satisfied_deps self /\
     requested_objects self' = requested_objects self /\
     (forall o, o ∈ all_objects self' -> dep ∈ deps o -> dep ∈ requested_objects self') /\
     deps_requested self').
Proof.
  assert (Hturn : load_dependency W cfg (set_unsatisfied_deps self rest) dep =
                  if except_missing_libs cfg
                  then Raise (CLException ("Could not find shared library: " +:+ dep))
                  else OK (set_fs_trace (set_unsatisfied_deps self rest)
                             (fs_trace self ++ r.1))).
  { destruct (already_satisfied_false cfg _ _ Hsat) as [H1 H2].
    unfold load_dependency. simpl. rewrite H1, H2.
    change (_resolve_path W cfg (set_unsatisfied_deps self rest) dep)
      with (_resolve_path W cfg self dep).
    rewrite Hr. simpl. by rewrite Hnp. }
  assert (Hreq : deps_requested self).
  { eapply loops_to_deps_requested; [done| |done].
    by eapply load_main_binary_deps_requested. }
  split; intros Hex; rewrite Hex in Hturn.
  - split; [done|].
    destruct (loops_to_fuel _ _ _ _ Hloop) as [n Hn]. exists n. intros fuel.
    unfold Ld_init. rewrite Hmain.
    replace (S n + fuel)%nat with (n + S fuel)%nat by lia.
    rewrite Hn. simpl. by rewrite Hq, Hturn.
  - eexists. split; [exact Hturn|]. repeat split; try done.
    + intros fuel. simpl. by rewrite Hq, Hturn.
    + intros o Ho Hd. by apply (Hreq o).
Qed.

Lemma missing_dependency_policy_witness :
  _load_dependencies world_mystery (config_lenient "/bin/main") 1 after_main_mystery =
  _load_dependencies world_mystery (config_lenient "/bin/main") 0
    (set_fs_trace (set_unsatisfied_deps after_main_mystery []) resolved_mystery.1).
Proof.
  destruct (missing_dependency_policy world_mystery (config_lenient "/bin/main")
              after_main_mystery after_main_mystery "libmystery.so" [] resolved_mystery)
    as [_ H].
  - intros o b o' [= <-]. reflexivity.
  - vm_compute. reflexivity.
  - constructor.
  - reflexivity.
  - reflexivity.
  - vm_compute. reflexivity.
  - reflexivity.
  - destruct (H eq_refl) as (self' & Hld & Hgo & _).
    assert (E : load_dependency world_mystery (config_lenient "/bin/main")
                  (set_unsatisfied_deps after_main_mystery []) "libmystery.so" =
                OK (set_fs_trace (set_unsatisfied_deps after_main_mystery [])
                      resolved_mystery.1)) by (vm_compute; reflexivity).
    rewrite E in Hld. injection Hld as <-. exact (Hgo 0%nat).
Defined.

(** C4 (as stated) fails for a name that is in the queue through
    [force_load_libs]: its resolution fails, the construction returns with
    the main image alone, and the name is not in [requested_objects]. *)
Lemma forced_name_not_requested :
  Ld_init world_plain config_force 1 = Some (OK (constructed world_plain config_force 1)) /\
  (exists r, _resolve_path world_plain config_force
               (set_unsatisfied_deps (constructed world_plain config_force 1) [])
               "libextra.so" = OK r /\ not_path r.2 = true) /\
  List.length (all_objects (constructed world_plain config_force 1)) = 1%nat /\
  "libextra.so" ∉ requested_objects (constructed world_plain config_force 1).
Proof.
  split; [vm_compute; reflexivity|]. split; [|split; [reflexivity|]].
  - eexists. split; [vm_compute; reflexivity | reflexivity].
  - apply (bool_decide_eq_false_1 ("libextra.so" ∈
             requested_objects (constructed world_plain config_force 1))).
    vm_compute. reflexivity.
Qed.

(** ** Termination of the dependency loop *)

Lemma resolve_path_from (W : World) (cfg : Config) (self : Ld) (path : string) :
  _resolve_path W cfg self path =
  (mb ← the_main_bin self; OK (resolve_from W cfg (arch mb) path)).
Proof.
  unfold _resolve_path, resolve_from.
  destruct (PyStr.has_sep path), (the_main_bin self) as [mb|e]; simpl; try done.
  by destruct (_check_lib W (arch mb) path).
Qed.

Lemma filter_length_le {A : Type} (f g : A -> bool) (l : list A) :
  (forall x, x ∈ l -> g x = true -> f x = true) ->
  (List.length (List.filter g l) <= List.length (List.filter f l))%nat.
Proof.
  induction l as [|a l IH]; intros H; simpl; [lia|].
  assert (Hl : forall x, x ∈ l -> g x = true -> f x = true).
  { intros x Hx. apply H. by right. }
  specialize (IH Hl). specialize (H a ltac:(left)).
  destruct (g a), (f a); simpl; lia.
Qed.

Lemma filter_length_lt {A : Type} (f g : A -> bool) (l : list A) (x : A) :
  (forall y, y ∈ l -> g y = true -> f y = true) ->
  x ∈ l -> f x = true -> g x = false ->
  (List.length (List.filter g l) < List.length (List.filter f l))%nat.
Proof.
  induction l as [|a l IH]; intros H Hx Hf Hg; [by apply elem_of_nil in Hx|].
  assert (Hl : forall y, y ∈ l -> g y = true -> f y = true).
  { intros y Hy. apply H. by right. }
  pose proof (filter_length_le f g l Hl) as Hle.
  apply elem_of_cons in Hx as [<-|Hx]; simpl.
  - rewrite Hf, Hg. simpl. lia.
  - specialize (IH Hl Hx Hf Hg). specialize (H a ltac:(left)).
    destruct (g a), (f a); simpl; lia.
Qed.

Section Termination.

Variable W : World.
Variable cfg : Config.
Variable names : list string.
Variable mb : Obj.

(** The names that can come up are those of [names]. *)
Hypothesis names_closed :
  forall c path options obj d,
    backend_new W c path options = OK obj -> d ∈ deps obj -> d ∈ names.

(** An image loaded for a name satisfies the name. *)
Hypothesis loaded_covers :
  forall dep path c options obj,
    dep ∈ names ->
    (resolve_from W cfg (arch mb) dep).2 = Some path ->
    backend_new W c path options = OK obj ->
    covers cfg obj dep = true.

Lemma satisfied_with_union (sat : gset string) (obj : Obj) :
  satisfied_with cfg sat obj = sat ∪ satisfied_with cfg ∅ obj.
Proof.
  unfold satisfied_with.
  destruct (provides obj), (ignore_import_version_numbers cfg);
    by rewrite ?(left_id_L ∅ (∪)), ?(right_id_L ∅ (∪)), ?(assoc_L (∪)).
Qed.

Lemma already_satisfied_mono (self self' : Ld) (d : string) :
  _satisfied_deps self ⊆ _satisfied_deps self' ->
  already_satisfied cfg self d = true -> already_satisfied cfg self' d = true.
Proof.
  unfold already_satisfied. intros Hsub H.
  apply orb_true_iff in H as [H|H]; apply orb_true_iff.
  - left. apply bool_decide_eq_true in H. apply bool_decide_eq_true. set_solver.
  - right. apply andb_true_iff in H as [-> H]. simpl.
    apply bool_decide_eq_true in H. apply bool_decide_eq_true. set_solver.
Qed.

Lemma covers_satisfied (self : Ld) (sat : gset string) (obj : Obj) (d : string) :
  _satisfied_deps self = satisfied_with cfg sat obj ->
  covers cfg obj d = true -> already_satisfied cfg self d = true.
Proof.
  unfold covers, already_satisfied. intros -> H. rewrite satisfied_with_union.
  apply orb_true_iff in H as [H|H]; apply orb_true_iff.
  - left. apply bool_decide_eq_true in H. apply bool_decide_eq_true. set_solver.
  - right. apply andb_true_iff in H as [-> H]. simpl.
    apply bool_decide_eq_true in H. apply bool_decide_eq_true. set_solver.
Qed.

Lemma turn_the_main_bin (self self' : Ld) (dep : string) :
  the_main_bin self = OK mb -> turn W cfg self dep self' -> the_main_bin self' = OK mb.
Proof.
  intros Hmb [? ->|r ? ? ? ? ->|r path obj obj' s1 ? ? ? ? Hadd Hall ->]; try done.
  apply add_object_inv in Hadd as (base & o' & _ & _ & _ & _ & _ & Hm & _).
  unfold the_main_bin in *. simpl in *. rewrite Hm, Hall.
  destruct (main_bin self) as [i|]; [|discriminate].
  destruct (all_objects self !! i) as [o|] eqn:Hi; [|discriminate].
  by rewrite (lookup_app_l_Some _ _ _ _ Hi).
Qed.

(** A turn either leaves the satisfied set alone and the queue without
    its head, or satisfies one more name of [names]. *)
Lemma turn_progress (self self' : Ld) (dep : string) :
  queue_known names mb self -> dep ∈ names -> turn W cfg self dep self' ->
  queue_known names mb self' /\
  ((unsatisfied_count cfg names self' = unsatisfied_count cfg names self /\
    _unsatisfied_deps self' = _unsatisfied_deps self) \/
   (unsatisfied_count cfg names self' < unsatisfied_count cfg names self)%nat).
Proof.
  intros [Hmb Hq] Hdep Hturn. split.
  { split; [by eapply turn_the_main_bin|].
    destruct Hturn as [? ->|r ? ? ? ? ->|r path obj obj' s1 ? ? ? Hlo Hadd Hall ->]; try done.
    simpl. apply add_object_inv in Hadd as (base & o' & _ & _ & Hq' & _).
    rewrite Hq'. simpl. intros d Hd. destruct (auto_load_libs cfg); [|by apply Hq].
    apply elem_of_app in Hd as [Hd|Hd]; [by apply Hq|].
    apply load_object_deps in Hlo as (c & o & Hnew & ->). by eapply names_closed. }
  destruct Hturn as [? ->|r ? ? ? ? ->|r path obj obj' s1 Hsat Hr Hp Hlo Hadd Hall ->].
  - by left.
  - by left.
  - right. apply add_object_inv in Hadd as (base & o' & _ & _ & _ & _ & Hs & _).
    simpl in Hs. unfold unsatisfied_count.
    apply (filter_length_lt _ _ _ dep).
    + intros d _ Hd. apply negb_true_iff in Hd. apply negb_true_iff.
      destruct (already_satisfied cfg self d) eqn:Ha; [|done].
      rewrite <- Hd. symmetry. refine (already_satisfied_mono self _ d _ Ha).
      simpl. rewrite Hs, satisfied_with_union. apply union_subseteq_l.
    + done.
    + by rewrite Hsat.
    + apply negb_false_iff. apply (covers_satisfied _ (_satisfied_deps self) obj); [done|].
      rewrite resolve_path_from, Hmb in Hr. simpl in Hr. injection Hr as <-.
      apply load_object_deps in Hlo as (c & o & Hnew & ->).
      change (covers cfg o dep = true). by eapply (loaded_covers dep path c).
Qed.

Lemma load_dependencies_terminates_aux (n : nat) :
  forall self, queue_known names mb self -> (unsatisfied_count cfg names self <= n)%nat ->
  exists fuel res, _load_dependencies W cfg fuel self = Some res.
Proof.
  induction n as [n IHn] using lt_wf_ind. intros self.
  remember (List.length (_unsatisfied_deps self)) as l eqn:Hl. revert self Hl.
  induction l as [|l IHl]; intros self Hl Hinv Hcount.
  - exists 0%nat, (OK self). simpl.
    by destruct (_unsatisfied_deps self).
  - destruct (_unsatisfied_deps self) as [|dep rest] eqn:Hq; [discriminate|].
    destruct (load_dependency W cfg (set_unsatisfied_deps self rest) dep) as [self'|e] eqn:Hld.
    + assert (Hpop : queue_known names mb (set_unsatisfied_deps self rest)).
      { destruct Hinv as [Hmb Hin]. split; [done|]. simpl. intros d Hd. apply Hin.
        rewrite Hq. by right. }
      assert (Hdep : dep ∈ names).
      { apply Hinv. rewrite Hq. by left. }
      destruct (turn_progress _ _ _ Hpop Hdep (load_dependency_inv _ _ _ _ _ Hld))
        as [Hinv' [[Hc Hq']|Hlt]].
      * destruct (IHl self') as (fuel & res & Hf).
        -- rewrite Hq'. simpl. simpl in Hl. lia.
        -- done.
        -- rewrite Hc. exact Hcount.
        -- exists (S fuel), res. simpl. by rewrite Hq, Hld.
      * change (unsatisfied_count cfg names (set_unsatisfied_deps self rest))
          with (unsatisfied_count cfg names self) in Hlt.
        destruct (IHn (unsatisfied_count cfg names self') ltac:(lia) self' Hinv' ltac:(lia))
          as (fuel & res & Hf).
        exists (S fuel), res. simpl. by rewrite Hq, Hld.
    + exists 1%nat, (Raise e). simpl. by rewrite Hq, Hld.
Qed.

End Termination.



(** ** A loop that does not terminate *)

Lemma py_max_ok (l : list Z) : l <> [] -> exists M, py_max l = OK M.
Proof. destruct l; [done|]. intros _. simpl. eauto. Qed.

Lemma py_max_le (l : list Z) (M B : Z) :
  py_max l = OK M -> (forall x, x ∈ l -> x <= B) -> M <= B.
Proof.
  destruct l as [|a l]; simpl; [discriminate|]. intros [= <-] H.
  assert (Ha : a <= B) by (apply H; by left).
  assert (Hl : forall x, x ∈ l -> x <= B) by (intros x Hx; apply H; by right).
  clear H. revert a Ha. induction l as [|y l IH]; intros a Ha; simpl; [done|].
  apply IH.
  - intros x Hx. apply Hl. by right.
  - assert (y <= B) by (apply Hl; by left). lia.
Qed.

Lemma existsb_none {A : Type} (f : A -> bool) (l : list A) :
  Forall (fun x => f x = false) l -> existsb f l = false.
Proof. induction 1 as [|x l Hx _ IH]; simpl; [done|]. by rewrite Hx. Qed.

(** A safe rebase address never makes [add_backer] fail: an image that is
    not an [IdaBin], added without a base, is accepted. *)
Lemma add_object_safe_ok (W : World) (cfg : Config) (self : Ld) (obj : Obj) :
  0 < rebase_granularity cfg ->
  obj_isinstance W obj IdaBin = false ->
  mem_size (obj_memory obj) <= get_max_addr obj + 1 ->
  backers_below self ->
  exists self', add_object W cfg self obj None = OK self' /\ backers_below self'.
Proof.
  intros HG Hida Hsize (m & M0 & Hmem & HM0 & Hbelow).
  set (f := fun x => get_max_addr x + rebase_addr x).
  destruct (py_max_ok (map f (all_objects self ++ [obj]))) as [M HM].
  { rewrite map_app. simpl. by destruct (map f (all_objects self)). }
  set (base := M + (rebase_granularity cfg - M mod rebase_granularity cfg)).
  destruct (safe_base_aligned M (rebase_granularity cfg) HG) as [_ Hgt]. fold base in Hgt.
  assert (HM0M : M0 <= M).
  { apply (py_max_le _ _ _ HM0). intros x Hx. apply (py_max_ge _ _ HM).
    rewrite map_app. apply elem_of_app. by left. }
  assert (Hadd : add_backer m base (obj_memory obj) =
                 OK {| backers := backers m ++ [(base, obj_memory obj)] |}).
  { unfold add_backer.
    rewrite existsb_none; [done|].
    eapply Forall_impl; [exact Hbelow|]. simpl. intros b Hb.
    unfold ranges_intersect. apply Z.ltb_ge. lia. }
  assert (Hres : add_object W cfg self obj None =
                 OK (set_all_objects
                       (set_memory
                          (set_satisfied_deps
                             (set_requested_objects
                                (set_unsatisfied_deps self
                                   (if auto_load_libs cfg
                                    then _unsatisfied_deps self ++ deps obj
                                    else _unsatisfied_deps self))
                                (requested_objects self ∪ list_to_set (deps obj)))
                             (satisfied_with cfg (_satisfied_deps self) obj))
                          (Some {| backers := backers m ++ [(base, obj_memory obj)] |}))
                       (all_objects self ++ [set_rebase_addr obj base]))).
  { unfold add_object, _get_safe_rebase_addr, max_addr, satisfied_with.
    destruct (auto_load_libs cfg), (provides obj), (ignore_import_version_numbers cfg);
      simpl; fold f; rewrite HM; simpl;
      rewrite (proj2 (Z.eqb_neq _ 0)) by lia; rewrite Hida, Hmem; fold base;
      simpl; rewrite Hadd; simpl; by rewrite insert_last. }
  eexists. split; [exact Hres|].
  destruct (py_max_ok (map f (all_objects self ++ [set_rebase_addr obj base]))) as [M' HM'].
  { rewrite map_app. simpl. by destruct (map f (all_objects self)). }
  eexists _, M'. split; [reflexivity|]. split; [exact HM'|]. simpl.
  assert (HM0M' : M0 <= M').
  { apply (py_max_le _ _ _ HM0). intros x Hx. apply (py_max_ge _ _ HM').
    rewrite map_app. apply elem_of_app. by left. }
  apply Forall_app. split.
  - eapply Forall_impl; [exact Hbelow|]. simpl. intros b Hb. lia.
  - constructor; [|constructor]. simpl.
    assert (get_max_addr obj + base <= M'); [|lia].
    apply (py_max_ge _ _ HM'). rewrite map_app. apply elem_of_app. right. by left.
Qed.

Lemma ring_turn (self : Ld) :
  ring_inv self ->
  exists dep self',
    _unsatisfied_deps self = [dep] /\
    load_dependency world_ring (config "/bin/main") (set_unsatisfied_deps self []) dep = OK self' /\
    ring_inv self'.
Proof.
  intros (Hq & Hsat & Hmb & Hbelow).
  assert (Hstep : forall dep lib next,
            resolve_from world_ring (config "/bin/main") "AMD64" dep
              = ((resolve_from world_ring (config "/bin/main") "AMD64" dep).1,
                 Some (binary lib)) ->
            binary lib <> "" ->
            load_object world_ring (binary lib) no_options = OK (set_cls lib ELF) ->
            provides lib = None -> deps lib = [next] ->
            mem_size (obj_memory lib) <= get_max_addr lib + 1 ->
            exists self',
              load_dependency world_ring (config "/bin/main")
                (set_unsatisfied_deps self []) dep = OK self' /\
              _unsatisfied_deps self' = [next] /\ _satisfied_deps self' = ∅ /\
              the_main_bin self' = OK main_ring_loaded /\ backers_below self').
  { intros dep lib next Hres Hne Hload Hprov Hdeps Hsize.
    destruct (add_object_safe_ok world_ring (config "/bin/main")
                (set_fs_trace (set_unsatisfied_deps self [])
                   (fs_trace self ++
                    (resolve_from world_ring (config "/bin/main") "AMD64" dep).1))
                (set_cls lib ELF)) as (s1 & Hadd & Hb1); [done|done|done|exact Hbelow|].
    pose proof (add_object_inv _ _ _ _ _ _ Hadd)
      as (base & obj' & _ & Hall & Hq1 & _ & Hs1 & Hm1 & _).
    simpl in Hall, Hq1, Hs1, Hm1.
    exists (set_shared_objects s1
              (<[provides obj' := List.length (all_objects self)]> (shared_objects s1))).
    split; [|split; [|split; [|split]]].
    - unfold load_dependency. simpl. rewrite Hsat.
      rewrite !bool_decide_eq_false_2 by apply not_elem_of_empty. simpl.
      rewrite resolve_path_from.
      change (the_main_bin (set_unsatisfied_deps self [])) with (the_main_bin self).
      rewrite Hmb. simpl.
      change (arch main_ring_loaded) with ("AMD64" : Arch).
      rewrite Hres. simpl.
      destruct (String.eqb (binary lib) "") eqn:He; [by apply String.eqb_eq in He|].
      change (_lib_opts (config "/bin/main")) with (∅ : gmap string Options).
      rewrite lookup_empty. simpl. rewrite Hload. simpl.
      rewrite Hadd. simpl. rewrite Hall.
      rewrite lookup_app_r by lia. rewrite Nat.sub_diag. simpl. done.
    - simpl. rewrite Hq1. by rewrite Hdeps.
    - simpl. rewrite Hs1, Hsat. unfold satisfied_with. simpl. by rewrite Hprov.
    - unfold the_main_bin in *. simpl. rewrite Hm1, Hall.
      destruct (main_bin self) as [i|]; [|discriminate].
      destruct (all_objects self !! i) as [o|] eqn:Hi; [|discriminate].
      by rewrite (lookup_app_l_Some _ _ _ _ Hi).
    - destruct Hb1 as (m & M & Hm & HM & Hf). exists m, M. done. }
  destruct Hq as [Hq|Hq].
  - destruct (Hstep "liba.so" liba_anon "libb.so") as (self' & Hld & Hq' & Hs' & Hm' & Hb');
      [vm_compute; reflexivity | discriminate | vm_compute; reflexivity | reflexivity..
      | simpl; lia |].
    exists "liba.so", self'. repeat split; try done. by right.
  - destruct (Hstep "libb.so" libb_anon "liba.so") as (self' & Hld & Hq' & Hs' & Hm' & Hb');
      [vm_compute; reflexivity | discriminate | vm_compute; reflexivity | reflexivity..
      | simpl; lia |].
    exists "libb.so", self'. repeat split; try done. by left.
Qed.

Lemma ring_never_ends (fuel : nat) (self : Ld) :
  ring_inv self -> _load_dependencies world_ring (config "/bin/main") fuel self = None.
Proof.
  revert self. induction fuel as [|fuel IH]; intros self Hinv.
  - destruct Hinv as ([Hq|Hq] & _); simpl; by rewrite Hq.
  - destruct (ring_turn self Hinv) as (dep & self' & Hq & Hld & Hinv').
    simpl. rewrite Hq, Hld. by apply IH.
Qed.

Lemma ring_inv_after_main : ring_inv after_main_ring.
Proof.
  split; [by left|]. split; [reflexivity|]. split; [vm_compute; reflexivity|].
  exists {| backers := [(0, obj_memory main_ring)] |}, 15.
  split; [vm_compute; reflexivity|]. split; [vm_compute; reflexivity|].
  constructor; [simpl; lia | constructor].
Qed.


(** ** Resolving imports against the shared objects *)

(** [_all_so_exports] gets through an empty [shared_objects] only. *)
Lemma all_so_exports_raises (self : Ld) :
  shared_objects self <> ∅ -> _all_so_exports self = Raise AttributeError.
Proof.
  intros Hne. unfold _all_so_exports.
  destruct (map_to_list (shared_objects self)) as [|[k v] l] eqn:Hl.
  - by apply map_to_list_empty_iff in Hl.
  - simpl. by destruct k.
Qed.

Lemma all_so_exports_empty (self : Ld) :
  shared_objects self = ∅ -> _all_so_exports self = OK ∅.
Proof. intros H. unfold _all_so_exports. by rewrite H, map_to_list_empty. Qed.

(** An import the image exports itself is bound to the image's own
    export, whatever the shared objects export. *)
Lemma resolve_import_own (b : Obj) (so_exports : gmap string Z) (name : string) (a : Z) :
  exports b !! name = Some a -> resolve_import b so_exports name = Some a.
Proof. unfold resolve_import. by intros ->. Qed.

(** C1.  The main binary is IDA-backed and imports [printf], which it
    does not export; [libc.so.6] is loaded after it and exports [printf].
    Relocation of the main binary does not bind the import to the export
    of [libc.so.6]: [_all_so_exports] reads [exports] off the keys of
    [shared_objects], and the construction ends in [AttributeError]. *)
Theorem ida_import_resolution_raises :
  (exists main libc,
      all_objects loaded_ida = [main; libc] /\
      cls main = IdaBin /\ imports main = [("printf", 8)] /\
      exports main !! "printf" = None /\ exports libc !! "printf" = Some 4) /\
  map_to_list (shared_objects loaded_ida) = [(Some "libc.so.6", 1%nat)] /\
  _all_so_exports loaded_ida = Raise AttributeError /\
  _perform_reloc world_ida loaded_ida = Raise AttributeError /\
  Ld_init world_ida config_ida 1 = Some (Raise AttributeError).
Proof.
  split; [|split; [|split; [|split]]].
  - eexists _, _. split; [vm_compute; reflexivity|]. repeat split; reflexivity.
  - vm_compute. reflexivity.
  - apply all_so_exports_raises. intros H.
    assert (E : shared_objects loaded_ida !! Some "libc.so.6" = Some 1%nat) by reflexivity.
    rewrite H in E. by rewrite lookup_empty in E.
  - vm_compute. reflexivity.
  - vm_compute. reflexivity.
Qed.

(** ** More on rebase addresses and the bounds of the address space *)

Lemma py_max_in (l : list Z) (M : Z) : py_max l = OK M -> M ∈ l.
Proof.
  destruct l as [|a l]; simpl; [discriminate|]. intros [= <-].
  revert a. induction l as [|y l IH]; intros a; simpl; [by left|].
  specialize (IH (Z.max a y)). apply elem_of_cons in IH as [Hm|Hm].
  - rewrite Hm. destruct (Z.max_spec a y) as [[_ ->]|[_ ->]]; [right; by left | by left].
  - right. by right.
Qed.

Lemma py_max_empty (l : list Z) : py_max l = Raise ValueError <-> l = [].
Proof. destruct l; simpl; split; done. Qed.

(** X1.  With a positive granularity and at least one image loaded,
    [_get_safe_rebase_addr] returns the least multiple of the granularity
    that is strictly greater than [max_addr()]: it is at most one
    granularity above it, and a whole granularity above it when
    [max_addr()] is itself a multiple. *)
Theorem safe_rebase_next_multiple (cfg : Config) (self : Ld)
    (HG : 0 < rebase_granularity cfg)
    (Hne : all_objects self <> []) :
  exists M base,
    max_addr self = OK M /\
    _get_safe_rebase_addr cfg self = OK base /\
    base mod rebase_granularity cfg = 0 /\
    M < base <= M + rebase_granularity cfg /\
    (forall b, b mod rebase_granularity cfg = 0 -> M < b -> base <= b) /\
    (M mod rebase_granularity cfg = 0 -> base = M + rebase_granularity cfg).
Proof.
  destruct (py_max_ok (map (fun x => get_max_addr x + rebase_addr x) (all_objects self)))
    as [M HM].
  { by destruct (all_objects self). }
  set (G := rebase_granularity cfg) in *.
  exists M, (M + (G - M mod G)).
  destruct (safe_base_aligned M G HG) as [Hmod Hgt].
  pose proof (Z.mod_pos_bound M G HG) as Hb.
  split; [exact HM|]. split.
  { unfold _get_safe_rebase_addr, max_addr. fold G. rewrite HM. simpl.
    by rewrite (proj2 (Z.eqb_neq G 0)) by lia. }
  split; [exact Hmod|]. split; [lia|]. split.
  - intros b Hbm HMb.
    apply Z.mod_divide in Hbm; [|lia]. destruct Hbm as [k ->].
    pose proof (Z.div_mod M G ltac:(lia)) as HMq.
    assert (M / G < k) by nia.
    replace (M + (G - M mod G)) with ((M / G + 1) * G) by lia. nia.
  - intros ->. lia.
Qed.

Lemma safe_rebase_next_multiple_witness :
  exists M base,
    max_addr after_main_libc = OK M /\
    _get_safe_rebase_addr config_libc after_main_libc = OK base /\
    M < base <= M + 256.
Proof.
  destruct (safe_rebase_next_multiple config_libc after_main_libc)
    as (M & base & HM & Hb & _ & Hr & _).
  - reflexivity.
  - discriminate.
  - exists M, base. split; [exact HM|]. split; [exact Hb | exact Hr].
Defined.

(** X2.  A granularity that is not positive makes the address unsafe: a
    zero granularity makes every [add_object] without a base raise
    [ZeroDivisionError], whatever the image and the loader; a negative
    one yields a base strictly below [max_addr()]. *)
Theorem nonpositive_granularity (W : World) (cfg : Config) (self : Ld) (obj : Obj) :
  (rebase_granularity cfg = 0 ->
   add_object W cfg self obj None = Raise ZeroDivisionError) /\
  (rebase_granularity cfg < 0 ->
   forall base, _get_safe_rebase_addr cfg self = OK base ->
     exists M, max_addr self = OK M /\
               M + rebase_granularity cfg <= base < M /\
               base mod rebase_granularity cfg = 0).
Proof.
  split.
  - intros HG. unfold add_object, _get_safe_rebase_addr, max_addr.
    destruct (py_max_ok (map (fun x => get_max_addr x + rebase_addr x)
                           (all_objects self ++ [obj]))) as [M HM].
    { by destruct (all_objects self). }
    destruct (auto_load_libs cfg), (provides obj), (ignore_import_version_numbers cfg);
      simpl; rewrite HM; simpl; by rewrite HG.
  - intros HG base Hb. apply safe_rebase_inv in Hb as (M & HM & _ & ->).
    exists M. split; [exact HM|].
    set (G := rebase_granularity cfg) in *.
    pose proof (Z.mod_neg_bound M G HG) as Hr. split; [lia|].
    replace (M + (G - M mod G)) with ((M / G + 1) * G).
    + apply Z.mod_mul. lia.
    + pose proof (Z.div_mod M G ltac:(lia)). lia.
Qed.

(** X3.  [max_addr()] and [min_addr()] raise [ValueError] exactly when no
    image is loaded; otherwise the maximum is the highest
    [get_max_addr() + rebase_addr] among the images, attained by one of
    them, and the minimum the lowest [get_min_addr() + rebase_addr]. *)
Theorem max_min_addr_extremes (self : Ld) :
  (max_addr self = Raise ValueError <-> all_objects self = []) /\
  (min_addr self = Raise ValueError <-> all_objects self = []) /\
  (forall M, max_addr self = OK M ->
     (exists o, o ∈ all_objects self /\ occupied_hi o = M) /\
     (forall o, o ∈ all_objects self -> occupied_hi o <= M)) /\
  (forall m, min_addr self = OK m ->
     (exists o, o ∈ all_objects self /\ occupied_lo o = m) /\
     (forall o, o ∈ all_objects self -> m <= occupied_lo o)).
Proof.
  unfold max_addr, min_addr, occupied_hi, occupied_lo.
  split; [|split; [|split]].
  - rewrite py_max_empty. by destruct (all_objects self).
  - destruct (all_objects self); simpl; split; done.
  - intros M HM. split.
    + apply py_max_in in HM. apply list_elem_of_fmap in HM as (o & -> & Ho).
      exists o. split; [done | lia].
    + intros o Ho.
      pose proof (py_max_ge _ _ HM (get_max_addr o + rebase_addr o)) as Hle.
      enough (get_max_addr o + rebase_addr o <= M) by lia.
      apply Hle. by apply (list_elem_of_fmap_2 (fun x => get_max_addr x + rebase_addr x)).
  - intros m Hm.
    destruct (py_max (map (fun x => - (get_min_addr x + rebase_addr x)) (all_objects self)))
      as [M|e] eqn:HM; simpl in Hm; [|discriminate].
    injection Hm as <-. split.
    + apply py_max_in in HM. apply list_elem_of_fmap in HM as (o & -> & Ho).
      exists o. split; [done | lia].
    + intros o Ho.
      pose proof (py_max_ge _ _ HM (- (get_min_addr o + rebase_addr o))) as Hle.
      enough (- (get_min_addr o + rebase_addr o) <= M) by lia.
      apply Hle.
      by apply (list_elem_of_fmap_2 (fun x => - (get_min_addr x + rebase_addr x))).
Qed.

(** X4.  When the memory of every loaded image lies within the bounds
    the image reports, as a backend keeps it, every mapped address lies
    between [min_addr()] and [max_addr()]. *)
Theorem mapped_addr_within_bounds (self : Ld) (addr : Z)
    (Hmem : forall o off, o ∈ all_objects self ->
              mem_contains (obj_memory o) off = true ->
              get_min_addr o <= off <= get_max_addr o)
    (Hmapped : addr_is_mapped self addr = true) :
  exists lo hi, min_addr self = OK lo /\ max_addr self = OK hi /\ lo <= addr <= hi.
Proof.
  unfold addr_is_mapped in Hmapped.
  destruct (addr_belongs_to_object self addr) as [o|] eqn:Ho; [|discriminate].
  unfold addr_belongs_to_object in Ho.
  apply (proj1 (find_first _ _ _)) in Ho as (i & Hi & Hc & _).
  assert (Hin : o ∈ all_objects self) by (apply list_elem_of_lookup; eauto).
  specialize (Hmem o _ Hin Hc).
  destruct (py_max_ok (map (fun x => get_max_addr x + rebase_addr x) (all_objects self)))
    as [hi Hhi].
  { destruct (all_objects self); [by apply elem_of_nil in Hin | done]. }
  destruct (py_max_ok (map (fun x => - (get_min_addr x + rebase_addr x)) (all_objects self)))
    as [nlo Hlo].
  { destruct (all_objects self); [by apply elem_of_nil in Hin | done]. }
  exists (- nlo), hi. unfold min_addr, max_addr. rewrite Hlo, Hhi. simpl.
  split; [done|]. split; [done|].
  pose proof (py_max_ge _ _ Hhi (get_max_addr o + rebase_addr o)
                (list_elem_of_fmap_2 (fun x => get_max_addr x + rebase_addr x) _ _ Hin)).
  pose proof (py_max_ge _ _ Hlo (- (get_min_addr o + rebase_addr o))
                (list_elem_of_fmap_2 (fun x => - (get_min_addr x + rebase_addr x)) _ _ Hin)).
  lia.
Qed.

Lemma mapped_addr_within_bounds_witness :
  exists lo hi, min_addr after_main_libc = OK lo /\ max_addr after_main_libc = OK hi /\
                lo <= 5 <= hi.
Proof.
  apply (mapped_addr_within_bounds after_main_libc 5).
  - intros o off Ho Hc.
    change (all_objects after_main_libc) with [set_rebase_addr (set_cls main_elf ELF) 0] in Ho.
    apply list_elem_of_singleton in Ho as ->.
    unfold mem_contains in Hc. apply bool_decide_eq_true in Hc.
    change (off ∈ (list_to_set (seqZ 0 16) : gset Z)) in Hc.
    apply elem_of_list_to_set in Hc. apply elem_of_seqZ in Hc. simpl. lia.
  - vm_compute. reflexivity.
Defined.

(** ** What the phases of the construction leave alone *)

Section Frames.

Variable W : World.
Variable cfg : Config.

Lemma same_loading_refl (self : Ld) : same_loading self self.
Proof. by repeat split. Qed.

Lemma same_loading_trans (a b c : Ld) :
  same_loading a b -> same_loading b c -> same_loading a c.
Proof.
  intros (H1 & H2 & H3 & H4 & H5 & H6) (K1 & K2 & K3 & K4 & K5 & K6).
  repeat split; congruence.
Qed.

Lemma resolve_imports_ida_frame (self self' : Ld) (i : nat) (b : Obj) :
  _resolve_imports_ida self i b = OK self' ->
  same_loading self self' /\ all_objects self' = all_objects self /\
  memory self' = memory self.
Proof.
  unfold _resolve_imports_ida.
  destruct (_all_so_exports self) as [so|e]; simpl; [|discriminate].
  intros [= <-]. generalize (imports b). intros l. revert self.
  induction l as [|imp l IH]; intros self; simpl.
  - split; [apply same_loading_refl | done].
  - destruct (IH (match resolve_import b so imp.1 with
                  | Some newaddr =>
                      set_ida_updates self (ida_updates self ++ [(i, imp.2, newaddr)])
                  | None => self
                  end)) as (H1 & H2 & H3).
    rewrite H2, H3. split; [|by destruct (resolve_import b so imp.1)].
    eapply same_loading_trans; [|exact H1].
    destruct (resolve_import b so imp.1); by repeat split.
Qed.

Lemma reloc_object_frame (self self' : Ld) (i : nat) (obj : Obj) :
  reloc_object W self i obj = OK self' ->
  same_loading self self' /\ memory self' = memory self /\
  all_objects self' = <[i := set_tls_module_id obj i]> (all_objects self).
Proof.
  unfold reloc_object.
  destruct (obj_isinstance W (set_tls_module_id obj i) IdaBin).
  { intros H. apply resolve_imports_ida_frame in H as (H1 & H2 & H3).
    split; [|by split]. destruct H1 as (K1 & K2 & K3 & K4 & K5 & K6). by repeat split. }
  destruct (obj_isinstance W (set_tls_module_id obj i) Pe).
  { intros [= <-]. by repeat split. }
  destruct (obj_isinstance W (set_tls_module_id obj i) MetaELF).
  - intros H.
    apply (for_each_same (fun s reloc => relocate W reloc (all_objects s))) in H.
    subst. by repeat split.
  - intros [= <-]. by repeat split.
Qed.

Lemma perform_reloc_from_frame (n i : nat) (self self' : Ld) :
  perform_reloc_from W n i self = OK self' ->
  same_loading self self' /\ memory self' = memory self /\
  forall j, all_objects self' !! j =
            if decide (i <= j < i + n)%nat
            then (fun o => set_tls_module_id o j) <$> all_objects self !! j
            else all_objects self !! j.
Proof.
  revert i self. induction n as [|n IH]; intros i self; simpl.
  - intros [= <-]. split; [apply same_loading_refl|]. split; [done|].
    intros j. destruct (decide _); [lia|done].
  - destruct (all_objects self !! i) as [obj|] eqn:Hi.
    + destruct (reloc_object W self i obj) as [s1|e] eqn:Hro; simpl; [|discriminate].
      intros H. apply IH in H as (Hs & Hmem & Hall).
      apply reloc_object_frame in Hro as (Hs1 & Hmem1 & Ha1).
      split; [by eapply same_loading_trans|]. split; [congruence|].
      intros j. rewrite Hall, Ha1.
      destruct (decide (j = i)) as [->|Hne].
      * rewrite list_lookup_insert_eq by (by apply lookup_lt_Some in Hi).
        rewrite Hi. simpl. destruct (decide _), (decide _); (lia || done).
      * rewrite list_lookup_insert_ne by done.
        destruct (decide _), (decide _); (lia || done).
    + intros [= <-]. split; [apply same_loading_refl|]. split; [done|].
      intros j. destruct (decide _) as [Hr|]; [|done].
      apply lookup_ge_None in Hi.
      rewrite (proj2 (lookup_ge_None (all_objects self) j)) by lia. done.
Qed.

Lemma perform_reloc_frame (self self' : Ld) :
  _perform_reloc W self = OK self' ->
  same_loading self self' /\ memory self' = memory self /\
  all_objects self' = imap (fun i o => set_tls_module_id o i) (all_objects self).
Proof.
  intros H. apply perform_reloc_from_frame in H as (Hs & Hm & Hall).
  split; [done|]. split; [done|].
  apply list_eq. intros j. rewrite Hall, list_lookup_imap.
  destruct (decide _) as [|Hn]; [done|].
  rewrite (proj2 (lookup_ge_None (all_objects self) j)) by lia. done.
Qed.

Lemma ida_sync_mem_frame (self self' : Ld) :
  ida_sync_mem W self = OK self' ->
  same_loading self self' /\ all_objects self' = all_objects self /\
  ida_updates self' = ida_updates self.
Proof.
  unfold ida_sync_mem. generalize (filter (fun i => obj_isinstance W i IdaBin = true)
                                          (all_objects self)).
  intros l. revert self. induction l as [|o l IH]; intros self; simpl.
  - intros [= <-]. split; [apply same_loading_refl | done].
  - destruct (memory self) as [m|]; simpl; [|discriminate].
    destruct (update_backer m (rebase_addr o) (obj_memory o)) as [m'|e]; simpl; [|discriminate].
    intros H. apply IH in H as (H1 & H2 & H3). by rewrite H2, H3.
Qed.

(** The stages of a construction that returned. *)
Lemma Ld_init_stages (fuel : nat) (self : Ld) :
  Ld_init W cfg fuel = Some (OK self) ->
  exists s0 s1,
    _load_main_binary W cfg (initial cfg) = OK s0 /\
    loops_to W cfg s0 s1 /\ _unsatisfied_deps s1 = [] /\
    same_loading s1 self /\
    all_objects self = imap (fun i o => set_tls_module_id o i) (all_objects s1).
Proof.
  unfold Ld_init.
  destruct (_load_main_binary W cfg (initial cfg)) as [s0|e]; [|discriminate].
  destruct (_load_dependencies W cfg fuel s0) as [[s1|e]|] eqn:Hl; [|discriminate..].
  apply load_dependencies_loops in Hl as [Hl Hq].
  destruct (_perform_reloc W s1) as [s2|e] eqn:Hp; simpl; [|discriminate].
  apply perform_reloc_frame in Hp as (Hs & _ & Hall).
  destruct (the_main_bin s2) as [mb|e]; simpl; [|discriminate].
  intros H.
  assert (Hfin : same_loading s2 self /\ all_objects self = all_objects s2).
  { destruct (obj_isinstance W mb IdaBin).
    - injection H as H. apply ida_sync_mem_frame in H as (H1 & H2 & _). by split.
    - injection H as <-. split; [apply same_loading_refl | done]. }
  destruct Hfin as [Hs2 Ha2].
  exists s0, s1. split; [done|]. split; [done|]. split; [done|].
  split; [by eapply same_loading_trans|]. by rewrite Ha2.
Qed.

(** An invariant of the turns holds in every state of the loop. *)
Lemma loops_to_invariant (P : Ld -> Prop) (start : Ld) :
  P start ->
  (forall self dep rest self',
      loops_to W cfg start self -> P self ->
      _unsatisfied_deps self = dep :: rest ->
      turn W cfg (set_unsatisfied_deps self rest) dep self' -> P self') ->
  forall self, loops_to W cfg start self -> P self.
Proof.
  intros H0 Hstep self Hl.
  induction Hl as [|self self' dep rest Hl IH Hq Hld]; [done|].
  apply load_dependency_inv in Hld. by eapply Hstep.
Qed.

End Frames.

(** ** Invariants of the construction *)

Section LoopInvariants.

Variable W : World.
Variable cfg : Config.

Lemma satisfied_with_sub (sat : gset string) (obj : Obj) :
  sat ⊆ satisfied_with cfg sat obj.
Proof. rewrite satisfied_with_union. apply union_subseteq_l. Qed.

Lemma satisfied_with_provides (sat : gset string) (obj : Obj) (p : string) :
  provides obj = Some p ->
  p ∈ satisfied_with cfg sat obj /\
  (ignore_import_version_numbers cfg = true -> fuzzy_strip p ∈ satisfied_with cfg sat obj).
Proof.
  unfold satisfied_with. intros ->.
  destruct (ignore_import_version_numbers cfg); split; try discriminate.
  - apply elem_of_union. left. apply elem_of_union. right. by apply elem_of_singleton.
  - intros _. apply elem_of_union. right. by apply elem_of_singleton.
  - apply elem_of_union. right. by apply elem_of_singleton.
Qed.

Lemma turn_satisfied_mono (self self' : Ld) (dep : string) :
  turn W cfg self dep self' -> _satisfied_deps self ⊆ _satisfied_deps self'.
Proof.
  intros [? ->|r ? ? ? ? ->|r path obj obj' s1 ? ? ? ? Hadd ? ->]; simpl; try done.
  apply add_object_inv in Hadd as (base & o' & _ & _ & _ & _ & Hs & _).
  rewrite Hs. simpl. apply satisfied_with_sub.
Qed.

Lemma loops_to_satisfied_mono (start self : Ld) :
  loops_to W cfg start self -> _satisfied_deps start ⊆ _satisfied_deps self.
Proof.
  apply (loops_to_invariant W cfg (fun s => _satisfied_deps start ⊆ _satisfied_deps s));
    [done|].
  intros s dep rest s' _ IH _ Hturn. apply turn_satisfied_mono in Hturn.
  simpl in Hturn. by etrans.
Qed.

Lemma load_main_binary_skip_libs (s0 : Ld) :
  _load_main_binary W cfg (initial cfg) = OK s0 ->
  forall d, d ∈ default [] (skip_libs cfg) -> d ∈ _satisfied_deps s0.
Proof.
  unfold _load_main_binary.
  destruct (load_object W _ _) as [mb|e]; simpl; [|discriminate].
  intros Hadd d Hd.
  apply add_object_inv in Hadd as (base & o' & _ & _ & _ & _ & Hs & _).
  rewrite Hs. apply satisfied_with_sub. simpl. by apply elem_of_list_to_set.
Qed.

Lemma load_main_binary_the_main_bin (s0 : Ld) :
  _load_main_binary W cfg (initial cfg) = OK s0 ->
  exists mb, the_main_bin s0 = OK mb /\ all_objects s0 = [mb].
Proof.
  intros H. apply load_main_binary_inv in H as [Hm [mb Ha]].
  exists mb. unfold the_main_bin. by rewrite Hm, Ha.
Qed.

Lemma loops_to_the_main_bin (start self : Ld) (mb : Obj) :
  the_main_bin start = OK mb -> loops_to W cfg start self -> the_main_bin self = OK mb.
Proof.
  intros H0. apply (loops_to_invariant W cfg (fun s => the_main_bin s = OK mb)); [done|].
  intros s dep rest s' _ IH _ Hturn.
  by apply (turn_the_main_bin W cfg mb (set_unsatisfied_deps s rest) s' dep).
Qed.

Section Provides.

(** [IdaBin.rebase] leaves the soname of the image alone. *)
Hypothesis ida_rebase_provides :
  forall o b o', ida_rebase W o b = OK o' -> provides o' = provides o.

Lemma add_object_provides (self self' : Ld) (obj : Obj) (base_addr : option Z) :
  add_object W cfg self obj base_addr = OK self' ->
  exists obj', all_objects self' = all_objects self ++ [obj'] /\
               provides obj' = provides obj /\
               _satisfied_deps self' = satisfied_with cfg (_satisfied_deps self) obj /\
               shared_objects self' = shared_objects self.
Proof.
  intros Hadd.
  apply add_object_inv in Hadd as (base & obj' & _ & Hall & _ & _ & Hs & _ & Hso & _ & _ & Hk).
  exists obj'. repeat split; try done.
  destruct (obj_isinstance W obj IdaBin).
  - destruct Hk as [Hreb _]. by apply ida_rebase_provides in Hreb.
  - by destruct Hk as [-> _].
Qed.

Lemma add_object_provides_satisfied (self self' : Ld) (obj : Obj) (base_addr : option Z) :
  provides_satisfied cfg self ->
  add_object W cfg self obj base_addr = OK self' ->
  provides_satisfied cfg self'.
Proof.
  intros Hinv Hadd.
  apply add_object_provides in Hadd as (obj' & Hall & Hp & Hs & _).
  intros o p Ho Hop. rewrite Hs. rewrite Hall in Ho.
  apply elem_of_app in Ho as [Ho|Ho].
  - destruct (Hinv o p Ho Hop) as [H1 H2]. split.
    + by apply satisfied_with_sub.
    + intros Hf. by apply satisfied_with_sub, H2.
  - apply list_elem_of_singleton in Ho as ->. rewrite Hp in Hop.
    by apply satisfied_with_provides.
Qed.

Lemma loops_provides_satisfied (s0 self : Ld) :
  _load_main_binary W cfg (initial cfg) = OK s0 ->
  loops_to W cfg s0 self ->
  provides_satisfied cfg self.
Proof.
  intros Hmain. apply (loops_to_invariant W cfg (provides_satisfied cfg)).
  - unfold _load_main_binary in Hmain.
    destruct (load_object W _ _) as [mb|e]; simpl in Hmain; [|discriminate].
    eapply add_object_provides_satisfied; [|exact Hmain].
    intros o p Ho. simpl in Ho. by apply elem_of_nil in Ho.
  - intros s dep rest s' _ IH _
      [? ->|r ? ? ? ? ->|r path obj obj' s1 ? ? ? ? Hadd ? ->]; try done.
    apply add_object_provides_satisfied in Hadd; done.
Qed.

Lemma loops_shared_objects (s0 self : Ld) :
  _load_main_binary W cfg (initial cfg) = OK s0 ->
  loops_to W cfg s0 self ->
  (1 <= List.length (all_objects self))%nat /\
  shared_objects_sound self /\ shared_objects_complete self.
Proof.
  intros Hmain.
  apply (loops_to_invariant W cfg
           (fun s => (1 <= List.length (all_objects s))%nat /\
                     shared_objects_sound s /\ shared_objects_complete s)).
  - pose proof (load_main_binary_inv _ _ _ Hmain) as [_ [mb Ha]].
    unfold _load_main_binary in Hmain.
    destruct (load_object W _ _) as [mb0|e]; simpl in Hmain; [|discriminate].
    apply add_object_provides in Hmain as (obj' & _ & _ & _ & Hso). simpl in Hso.
    split; [rewrite Ha; simpl; lia|]. split.
    + intros k i Hk. rewrite Hso in Hk. by rewrite lookup_empty in Hk.
    + intros i o Hi Ho. rewrite Ha in Ho. destruct i; [lia|]. by simpl in Ho.
  - intros s dep rest s' _ (Hlen & Hsound & Hcomp) _
      [? ->|r ? ? ? ? ->|r path obj obj' s1 ? ? ? ? Hadd Hall ->]; try done.
    apply add_object_provides in Hadd as (o2 & _ & _ & _ & Hso).
    simpl in Hall, Hso. unfold shared_objects_sound, shared_objects_complete in *.
    simpl. rewrite Hall, Hso, length_app. simpl.
    split; [lia|]. split.
    + intros k i Hk. destruct (decide (provides obj' = k)) as [<-|Hne].
      * rewrite lookup_insert_eq in Hk. injection Hk as <-. split; [lia|].
        exists obj'. split; [|done].
        rewrite lookup_app_r by lia. by rewrite Nat.sub_diag.
      * rewrite lookup_insert_ne in Hk by done.
        destruct (Hsound k i Hk) as (Hi & o & Ho & Hp). split; [done|].
        exists o. split; [|done]. by apply lookup_app_l_Some.
    + intros i o Hi Ho. apply lookup_app_Some in Ho as [Ho|[Hge Ho]].
      * destruct (Hcomp i o Hi Ho) as (j & Hj & Hjs).
        destruct (decide (provides obj' = provides o)) as [Heq|Hne].
        -- exists (List.length (all_objects s)). rewrite <- Heq, lookup_insert_eq.
           split; [|done]. apply lookup_lt_Some in Ho. lia.
        -- exists j. by rewrite lookup_insert_ne.
      * apply list_lookup_singleton_Some in Ho as [Hz <-].
        exists (List.length (all_objects s)). rewrite lookup_insert_eq. split; [lia|done].
Qed.

End Provides.

Lemma elem_of_imap_tls (l : list Obj) (o : Obj) :
  o ∈ imap (fun i o => set_tls_module_id o i) l ->
  exists i o1, l !! i = Some o1 /\ o = set_tls_module_id o1 i.
Proof.
  intros H. apply list_elem_of_lookup in H as [i Hi].
  rewrite list_lookup_imap in Hi.
  destruct (l !! i) as [o1|] eqn:Hl; simpl in Hi; [|discriminate].
  injection Hi as <-. eauto.
Qed.

Lemma turn_queue_no_auto (self self' : Ld) (dep : string) :
  auto_load_libs cfg = false ->
  turn W cfg self dep self' -> _unsatisfied_deps self' = _unsatisfied_deps self.
Proof.
  intros Hauto [? ->|r ? ? ? ? ->|r path obj obj' s1 ? ? ? ? Hadd ? ->]; simpl; try done.
  apply add_object_inv in Hadd as (base & o' & _ & _ & Hq & _).
  rewrite Hq, Hauto. done.
Qed.

End LoopInvariants.

(** X5.  After a construction that returns, the satisfied set holds the
    soname of every loaded image and, with fuzzy matching, its stripped
    form, together with every name of [skip_libs] (provided
    [IdaBin.rebase] leaves the soname alone). *)
Theorem loaded_sonames_satisfied (W : World) (cfg : Config) (fuel : nat) (self : Ld)
    (Hida : forall o b o', ida_rebase W o b = OK o' -> provides o' = provides o)
    (Hinit : Ld_init W cfg fuel = Some (OK self)) :
  provides_satisfied cfg self /\
  (forall d, d ∈ default [] (skip_libs cfg) -> d ∈ _satisfied_deps self).
Proof.
  apply Ld_init_stages in Hinit as (s0 & s1 & Hmain & Hloop & _ & Hsame & Hall).
  destruct Hsame as (_ & Hsat & _).
  split.
  - intros o p Ho Hp. rewrite Hall in Ho.
    apply elem_of_imap_tls in Ho as (i & o1 & Hi & ->). rewrite Hsat.
    apply (loops_provides_satisfied W cfg Hida s0 s1 Hmain Hloop o1 p); [|done].
    apply list_elem_of_lookup. eauto.
  - intros d Hd. rewrite Hsat.
    apply (loops_to_satisfied_mono W cfg s0 s1 Hloop).
    by apply (load_main_binary_skip_libs W cfg).
Qed.

Lemma loaded_sonames_satisfied_witness :
  provides_satisfied config_libc (constructed world_libc config_libc 1).
Proof.
  refine (proj1 (loaded_sonames_satisfied world_libc config_libc 1
                   (constructed world_libc config_libc 1) _ _)).
  - intros o b o' [= <-]. reflexivity.
  - vm_compute. reflexivity.
Defined.

(** X6.  A queued name whose basename is in [skip_libs] is never looked
    for: whenever the loop pops it, the turn leaves the loader as it is
    but for the queue (no filesystem call, no image). *)
Theorem skip_libs_never_loaded (W : World) (cfg : Config) (s0 self : Ld)
    (dep : string) (rest : list string)
    (Hmain : _load_main_binary W cfg (initial cfg) = OK s0)
    (Hloop : loops_to W cfg s0 self)
    (Hq : _unsatisfied_deps self = dep :: rest)
    (Hskip : PyStr.basename dep ∈ default [] (skip_libs cfg)) :
  load_dependency W cfg (set_unsatisfied_deps self rest) dep =
    OK (set_unsatisfied_deps self rest) /\
  forall fuel,
    _load_dependencies W cfg (S fuel) self =
    _load_dependencies W cfg fuel (set_unsatisfied_deps self rest).
Proof.
  assert (Hsat : already_satisfied cfg (set_unsatisfied_deps self rest) dep = true).
  { unfold already_satisfied. apply orb_true_iff. left. apply bool_decide_eq_true. simpl.
    apply (loops_to_satisfied_mono W cfg s0 self Hloop).
    by apply (load_main_binary_skip_libs W cfg). }
  pose proof (load_dependency_satisfied W cfg _ _ Hsat) as Hld.
  split; [exact Hld|]. intros fuel. simpl. by rewrite Hq, Hld.
Qed.

Lemma skip_libs_never_loaded_witness :
  load_dependency world_libc config_skip_libc (set_unsatisfied_deps after_main_skip [])
    "libc.so.6" = OK (set_unsatisfied_deps after_main_skip []).
Proof.
  refine (proj1 (skip_libs_never_loaded world_libc config_skip_libc
                   after_main_skip after_main_skip "libc.so.6" [] _ _ _ _)).
  - vm_compute. reflexivity.
  - constructor.
  - reflexivity.
  - by apply list_elem_of_singleton.
Defined.

(** X7.  After a construction that returns, every entry of
    [shared_objects] refers to a loaded image other than the main binary,
    under the soname that image provides; and every image but the main
    binary is found under its soname unless an image loaded later
    provides the same, which then takes the entry (provided
    [IdaBin.rebase] leaves the soname alone). *)
Theorem shared_objects_index (W : World) (cfg : Config) (fuel : nat) (self : Ld)
    (Hida : forall o b o', ida_rebase W o b = OK o' -> provides o' = provides o)
    (Hinit : Ld_init W cfg fuel = Some (OK self)) :
  shared_objects_sound self /\ shared_objects_complete self.
Proof.
  apply Ld_init_stages in Hinit as (s0 & s1 & Hmain & Hloop & _ & Hsame & Hall).
  destruct Hsame as (_ & _ & _ & Hso & _).
  destruct (loops_shared_objects W cfg Hida s0 s1 Hmain Hloop) as (_ & Hsound & Hcomp).
  split.
  - intros k i Hk. rewrite Hso in Hk. destruct (Hsound k i Hk) as (Hi & o & Ho & Hp).
    split; [done|]. exists (set_tls_module_id o i). split; [|done].
    by rewrite Hall, list_lookup_imap, Ho.
  - intros i o Hi Ho. rewrite Hall, list_lookup_imap in Ho.
    destruct (all_objects s1 !! i) as [o1|] eqn:Ho1; simpl in Ho; [|discriminate].
    injection Ho as <-. destruct (Hcomp i o1 Hi Ho1) as (j & Hj & Hjs).
    exists j. split; [done|]. by rewrite Hso.
Qed.

Lemma shared_objects_index_witness :
  shared_objects_sound (constructed world_libc config_libc 1).
Proof.
  refine (proj1 (shared_objects_index world_libc config_libc 1
                   (constructed world_libc config_libc 1) _ _)).
  - intros o b o' [= <-]. reflexivity.
  - vm_compute. reflexivity.
Defined.

(** X8.  With [auto_load_libs] off the queue never grows: the loop ends
    after one turn per queued name, cyclic dependencies or not, and adds
    at most one image per queued name. *)
Theorem force_load_only_terminates (W : World) (cfg : Config) (self : Ld)
    (Hauto : auto_load_libs cfg = false) :
  exists res,
    _load_dependencies W cfg (List.length (_unsatisfied_deps self)) self = Some res /\
    forall self', res = OK self' ->
      _unsatisfied_deps self' = [] /\
      (List.length (all_objects self') <=
       List.length (all_objects self) + List.length (_unsatisfied_deps self))%nat.
Proof.
  remember (List.length (_unsatisfied_deps self)) as n eqn:Hn.
  revert self Hn. induction n as [|n IH]; intros self Hn.
  - destruct (_unsatisfied_deps self) as [|dep rest] eqn:Hq; [|discriminate].
    exists (OK self). simpl. rewrite Hq. split; [done|].
    intros self' [= <-]. split; [done | lia].
  - destruct (_unsatisfied_deps self) as [|dep rest] eqn:Hq; [discriminate|].
    simpl. rewrite Hq.
    destruct (load_dependency W cfg (set_unsatisfied_deps self rest) dep) as [s1|e] eqn:Hld.
    + apply load_dependency_inv in Hld.
      pose proof (turn_queue_no_auto W cfg _ _ _ Hauto Hld) as Hq1. simpl in Hq1.
      destruct (IH s1) as (res & Hres & Hpost).
      { rewrite Hq1. simpl in Hn. lia. }
      exists res. split; [exact Hres|].
      intros self' Hok. destruct (Hpost self' Hok) as [He Hlen]. split; [done|].
      simpl in Hn.
      destruct (turn_all_objects W cfg _ _ _ Hld) as [Ha|[obj' Ha]]; simpl in Ha;
        rewrite Ha in Hlen; [lia|]. rewrite length_app in Hlen. simpl in Hlen. lia.
    + exists (Raise e). split; [done|]. discriminate.
Qed.

Lemma force_load_only_terminates_witness :
  exists res,
    _load_dependencies world_libc config_forced_libc
      (List.length (_unsatisfied_deps after_main_forced)) after_main_forced = Some res.
Proof.
  destruct (force_load_only_terminates world_libc config_forced_libc after_main_forced
              eq_refl) as (res & Hres & _).
  exists res. exact Hres.
Defined.

Lemma satisfied_grows (cfg : Config) (self self' : Ld) (d : string) :
  _satisfied_deps self ⊆ _satisfied_deps self' ->
  already_satisfied cfg self d = true -> already_satisfied cfg self' d = true.
Proof.
  unfold already_satisfied. intros Hsub H.
  apply orb_true_iff in H as [H|H]; apply orb_true_iff.
  - left. apply bool_decide_eq_true in H. apply bool_decide_eq_true. by apply Hsub.
  - right. apply andb_true_iff in H as [-> H]. simpl.
    apply bool_decide_eq_true in H. apply bool_decide_eq_true. by apply Hsub.
Qed.

Section Declared.

Variable W : World.
Variable cfg : Config.

Hypothesis ida_rebase_deps :
  forall o b o', ida_rebase W o b = OK o' -> deps o' = deps o.

Lemma add_object_deps (self self' : Ld) (obj : Obj) (base_addr : option Z) :
  add_object W cfg self obj base_addr = OK self' ->
  exists obj', all_objects self' = all_objects self ++ [obj'] /\
               deps obj' = deps obj /\
               requested_objects self' = requested_objects self ∪ list_to_set (deps obj) /\
               _unsatisfied_deps self' =
                 (if auto_load_libs cfg then _unsatisfied_deps self ++ deps obj
                  else _unsatisfied_deps self) /\
               _satisfied_deps self ⊆ _satisfied_deps self'.
Proof.
  intros Hadd.
  apply add_object_inv in Hadd as (base & obj' & _ & Hall & Hq & Hr & Hs & _ & _ & _ & _ & Hk).
  exists obj'. repeat split; try done.
  - destruct (obj_isinstance W obj IdaBin).
    + destruct Hk as [Hreb _]. by apply ida_rebase_deps in Hreb.
    + by destruct Hk as [-> _].
  - rewrite Hs. apply satisfied_with_sub.
Qed.

Lemma add_object_requested_declared (self self' : Ld) (obj : Obj) (base_addr : option Z) :
  requested_declared self ->
  add_object W cfg self obj base_addr = OK self' ->
  requested_declared self'.
Proof.
  intros Hinv Hadd. apply add_object_deps in Hadd as (obj' & Hall & Hd & Hr & _).
  intros d Hin. rewrite Hr in Hin. rewrite Hall.
  apply elem_of_union in Hin as [Hin|Hin].
  - destruct (Hinv d Hin) as (o & Ho & Hdo). exists o. split; [|done].
    apply elem_of_app. by left.
  - exists obj'. split; [apply elem_of_app; right; by apply list_elem_of_singleton|].
    rewrite Hd. by apply elem_of_list_to_set in Hin.
Qed.

Lemma loops_requested_declared (s0 self : Ld) :
  _load_main_binary W cfg (initial cfg) = OK s0 ->
  loops_to W cfg s0 self ->
  requested_declared self.
Proof.
  intros Hmain. apply (loops_to_invariant W cfg requested_declared).
  - unfold _load_main_binary in Hmain.
    destruct (load_object W _ _) as [mb|e]; simpl in Hmain; [|discriminate].
    eapply add_object_requested_declared; [|exact Hmain].
    intros d Hd. simpl in Hd. by apply not_elem_of_empty in Hd.
  - intros s dep rest s' _ IH _
      [? ->|r ? ? ? ? ->|r path obj obj' s1 ? ? ? ? Hadd ? ->]; try done.
    apply add_object_requested_declared in Hadd; done.
Qed.

(** With automatic loading and without leniency, every declared
    dependency stays accounted for. *)
Lemma loops_accounted (s0 self : Ld) (mb : Obj) :
  auto_load_libs cfg = true ->
  except_missing_libs cfg = true ->
  _load_main_binary W cfg (initial cfg) = OK s0 ->
  the_main_bin s0 = OK mb ->
  loops_to W cfg s0 self ->
  forall o d, o ∈ all_objects self -> d ∈ deps o -> accounted W cfg (arch mb) self d.
Proof.
  intros Hauto Hexc Hmain Hmb Hloop.
  assert (Hboth : the_main_bin self = OK mb /\
                  forall o d, o ∈ all_objects self -> d ∈ deps o ->
                              accounted W cfg (arch mb) self d); [|by destruct Hboth].
  revert self Hloop.
  apply (loops_to_invariant W cfg
           (fun s => the_main_bin s = OK mb /\
                     forall o d, o ∈ all_objects s -> d ∈ deps o ->
                                 accounted W cfg (arch mb) s d)).
  - split; [done|]. unfold _load_main_binary in Hmain.
    destruct (load_object W _ _) as [mb0|e]; simpl in Hmain; [|discriminate].
    apply add_object_deps in Hmain as (obj' & Hall & Hd & _ & Hq & _).
    simpl in Hall, Hq. rewrite Hauto in Hq.
    intros o d Ho Hdo. rewrite Hall in Ho. apply list_elem_of_singleton in Ho as ->.
    left. rewrite Hq, <- Hd. apply elem_of_app. by right.
  - intros s dep rest s' _ [Hm IH] Hq Hturn.
    split; [by apply (turn_the_main_bin W cfg mb (set_unsatisfied_deps s rest) s' dep)|].
    destruct Hturn as [Hsat ->|r ? ? ? Hno ->|r path obj obj' s1 Hsat Hr Hp Hlo Hadd Hall ->].
    + intros o d Ho Hdo. destruct (IH o d Ho Hdo) as [Hin|[Hs|Hres]].
      * rewrite Hq in Hin. apply elem_of_cons in Hin as [->|Hin].
        -- right. left. exact Hsat.
        -- by left.
      * right. by left.
      * right. by right.
    + congruence.
    + apply add_object_deps in Hadd as (o2 & Hall2 & Hd2 & _ & Hq2 & Hsub).
      simpl in Hall, Hall2, Hq2, Hsub. rewrite Hauto in Hq2.
      rewrite Hall in Hall2. apply app_inv_head in Hall2. injection Hall2 as <-.
      intros o d Ho Hdo. simpl in Ho. rewrite Hall in Ho.
      apply elem_of_app in Ho as [Ho|Ho].
      * destruct (IH o d Ho Hdo) as [Hin|[Hs|Hres]].
        -- rewrite Hq in Hin. apply elem_of_cons in Hin as [->|Hin].
           ++ right. right. exists path.
              rewrite resolve_path_from in Hr.
              change (the_main_bin (set_unsatisfied_deps s rest)) with (the_main_bin s) in Hr.
              rewrite Hm in Hr. simpl in Hr. by injection Hr as <-.
           ++ left. simpl. rewrite Hq2. apply elem_of_app. by left.
        -- right. left. by apply (satisfied_grows cfg s).
        -- right. by right.
      * apply list_elem_of_singleton in Ho as ->.
        left. simpl. rewrite Hq2, <- Hd2. apply elem_of_app. by right.
Qed.

End Declared.

(** X9.  After a construction that returns, [requested_objects] is
    exactly the set of the names that the loaded images declare as
    dependencies: nothing else is ever put into it, neither the names of
    [force_load_libs] nor those of [skip_libs] (provided [IdaBin.rebase]
    leaves the declared dependencies alone). *)
Theorem requested_objects_exact (W : World) (cfg : Config) (fuel : nat) (self : Ld)
    (Hida : forall o b o', ida_rebase W o b = OK o' -> deps o' = deps o)
    (Hinit : Ld_init W cfg fuel = Some (OK self)) :
  forall d, d ∈ requested_objects self <-> exists o, o ∈ all_objects self /\ d ∈ deps o.
Proof.
  apply Ld_init_stages in Hinit as (s0 & s1 & Hmain & Hloop & _ & Hsame & Hall).
  destruct Hsame as (_ & _ & _ & _ & Hreq & _).
  intros d. rewrite Hreq, Hall. split.
  - intros Hd.
    destruct (loops_requested_declared W cfg Hida s0 s1 Hmain Hloop d Hd) as (o & Ho & Hdo).
    apply list_elem_of_lookup in Ho as [i Hi].
    exists (set_tls_module_id o i). split; [|done].
    apply list_elem_of_lookup. exists i. by rewrite list_lookup_imap, Hi.
  - intros (o & Ho & Hdo). apply elem_of_imap_tls in Ho as (i & o1 & Hi & ->).
    pose proof (loops_to_deps_requested W cfg Hida s0 s1
                  (load_main_binary_deps_requested W cfg Hida s0 Hmain) Hloop) as Hdr.
    apply (Hdr o1); [|done]. apply list_elem_of_lookup. eauto.
Qed.

Lemma requested_objects_exact_witness :
  "libc.so.6" ∈ requested_objects (constructed world_libc config_libc 1) <->
  exists o, o ∈ all_objects (constructed world_libc config_libc 1) /\ "libc.so.6" ∈ deps o.
Proof.
  refine (requested_objects_exact world_libc config_libc 1
            (constructed world_libc config_libc 1) _ _ "libc.so.6").
  - intros o b o' [= <-]. reflexivity.
  - vm_compute. reflexivity.
Defined.

(** X10.  With [auto_load_libs] and [except_missing_libs] on, a
    construction that returns has dealt with every declared dependency of
    every loaded image: the dedup test skips the name, or the path search
    finds a file for it (provided [IdaBin.rebase] leaves the declared
    dependencies alone). *)
Theorem declared_deps_accounted (W : World) (cfg : Config) (fuel : nat) (self : Ld)
    (Hauto : auto_load_libs cfg = true)
    (Hexc : except_missing_libs cfg = true)
    (Hida : forall o b o', ida_rebase W o b = OK o' -> deps o' = deps o)
    (Hinit : Ld_init W cfg fuel = Some (OK self)) :
  exists mb,
    the_main_bin self = OK mb /\
    forall o d, o ∈ all_objects self -> d ∈ deps o ->
      already_satisfied cfg self d = true \/
      exists p, (resolve_from W cfg (arch mb) d).2 = Some p.
Proof.
  apply Ld_init_stages in Hinit as (s0 & s1 & Hmain & Hloop & Hq & Hsame & Hall).
  destruct Hsame as (_ & Hsat & Hmb & _).
  destruct (load_main_binary_the_main_bin W cfg s0 Hmain) as (mb & Hm0 & Ha0).
  pose proof (loops_to_the_main_bin W cfg s0 s1 mb Hm0 Hloop) as Hm1.
  pose proof (load_main_binary_inv W cfg s0 Hmain) as [Hi0 _].
  destruct (loops_to_main_bin W cfg s0 s1 Hloop) as [Hi1 _].
  assert (H0 : all_objects s1 !! 0%nat = Some mb).
  { unfold the_main_bin in Hm1. rewrite Hi1, Hi0 in Hm1.
    destruct (all_objects s1 !! 0%nat); [by injection Hm1 as -> | discriminate]. }
  exists (set_tls_module_id mb 0). split.
  { unfold the_main_bin. rewrite Hmb, Hi1, Hi0, Hall, list_lookup_imap, H0. done. }
  intros o d Ho Hdo. rewrite Hall in Ho. apply elem_of_imap_tls in Ho as (i & o1 & Hi & ->).
  assert (Ho1 : o1 ∈ all_objects s1) by (apply list_elem_of_lookup; eauto).
  destruct (loops_accounted W cfg Hida s0 s1 mb Hauto Hexc Hmain Hm0 Hloop o1 d Ho1 Hdo)
    as [Hin|[Hs|Hres]].
  - rewrite Hq in Hin. by apply elem_of_nil in Hin.
  - left. unfold already_satisfied in *. by rewrite Hsat.
  - by right.
Qed.

Lemma declared_deps_accounted_witness :
  exists mb,
    the_main_bin (constructed world_libc config_libc 1) = OK mb /\
    forall o d, o ∈ all_objects (constructed world_libc config_libc 1) -> d ∈ deps o ->
      already_satisfied config_libc (constructed world_libc config_libc 1) d = true \/
      exists p, (resolve_from world_libc config_libc (arch mb) d).2 = Some p.
Proof.
  refine (declared_deps_accounted world_libc config_libc 1
            (constructed world_libc config_libc 1) eq_refl eq_refl _ _).
  - intros o b o' [= <-]. reflexivity.
  - vm_compute. reflexivity.
Defined.

(** ** More on relocation *)

Lemma set_ida_updates_id (self : Ld) : set_ida_updates self (ida_updates self) = self.
Proof. by destruct self. Qed.

Lemma set_memory_id (self : Ld) : set_memory self (memory self) = self.
Proof. by destruct self. Qed.

Lemma fold_import_updates (i : nat) (b : Obj) (so : gmap string Z)
    (l : list (string * Z)) (self : Ld) :
  fold_left
    (fun self (imp : string * Z) =>
       match resolve_import b so imp.1 with
       | Some newaddr => set_ida_updates self (ida_updates self ++ [(i, imp.2, newaddr)])
       | None => self
       end) l self =
  set_ida_updates self
    (ida_updates self ++
     omap (fun imp : string * Z =>
             (fun newaddr => (i, imp.2, newaddr)) <$> resolve_import b so imp.1) l).
Proof.
  revert self. induction l as [|imp l IH]; intros self; simpl.
  - by rewrite app_nil_r, set_ida_updates_id.
  - rewrite IH. destruct (resolve_import b so imp.1) as [a|]; simpl; [|done].
    by rewrite <- app_assoc.
Qed.

Lemma omap_pointwise {A B : Type} (f g : A -> option B) (l : list A) :
  (forall x, f x = g x) -> omap f l = omap g l.
Proof.
  intros H. induction l as [|x l IH]; [done|].
  change (omap f (x :: l)) with (match f x with Some y => y :: omap f l | None => omap f l end).
  change (omap g (x :: l)) with (match g x with Some y => y :: omap g l | None => omap g l end).
  by rewrite H, IH.
Qed.

Lemma for_each_total {A S : Type} (f : S -> A -> result unit) (l : list A) (s : S) :
  (forall s x, f s x = OK ()) ->
  for_each (fun s x => _ ← f s x; OK s) l s = OK s.
Proof.
  intros Hf. induction l as [|x l IH]; simpl; [done|]. by rewrite Hf.
Qed.

Lemma insert_tls_elem (l : list Obj) (i : nat) (obj o' : Obj) :
  l !! i = Some obj ->
  o' ∈ <[i := set_tls_module_id obj i]> l ->
  exists o, o ∈ l /\ cls o' = cls o /\ relocs o' = relocs o.
Proof.
  intros Hi Ho. apply list_elem_of_lookup in Ho as [j Hj].
  destruct (decide (j = i)) as [->|Hne].
  - rewrite list_lookup_insert_eq in Hj by (by apply lookup_lt_Some in Hi).
    injection Hj as <-. exists obj. split; [|done]. apply list_elem_of_lookup. eauto.
  - rewrite list_lookup_insert_ne in Hj by done.
    exists o'. split; [|done]. apply list_elem_of_lookup. eauto.
Qed.

Lemma for_each_relocate_raise (W : World) (l : list Reloc) (s : Ld) (e : Exc) :
  for_each (fun self reloc => _ ← relocate W reloc (all_objects self); OK self) l s = Raise e ->
  exists r, r ∈ l /\ relocate W r (all_objects s) = Raise e.
Proof.
  induction l as [|x l IH]; simpl; [discriminate|].
  destruct (relocate W x (all_objects s)) as [[]|e'] eqn:Hx; simpl.
  - intros Hf. destruct (IH Hf) as (r & Hr & He). exists r. split; [by right | done].
  - intros [= <-]. exists x. split; [by left | done].
Qed.

Lemma reloc_succeeds_from (W : World) (n : nat) :
  (forall r l, relocate W r l = OK ()) ->
  forall i self,
    (forall o, o ∈ all_objects self -> obj_isinstance W o IdaBin = false) ->
    exists self', perform_reloc_from W n i self = OK self'.
Proof.
  intros Hrel. induction n as [|n IH]; intros i self Hno; simpl; [eauto|].
  destruct (all_objects self !! i) as [obj|] eqn:Hi; [|eauto].
  assert (Hro : exists s1, reloc_object W self i obj = OK s1).
  { unfold reloc_object.
    destruct (obj_isinstance W (set_tls_module_id obj i) IdaBin) eqn:Hida.
    - change (obj_isinstance W obj IdaBin = true) in Hida.
      rewrite (Hno obj) in Hida; [discriminate|]. apply list_elem_of_lookup. eauto.
    - destruct (obj_isinstance W (set_tls_module_id obj i) Pe); [eauto|].
      destruct (obj_isinstance W (set_tls_module_id obj i) MetaELF); [|eauto].
      rewrite (for_each_total (fun s reloc => relocate W reloc (all_objects s))); eauto. }
  destruct Hro as [s1 Hro]. rewrite Hro. simpl. apply IH.
  apply reloc_object_frame in Hro as (_ & _ & Ha).
  intros o' Ho'. rewrite Ha in Ho'.
  destruct (insert_tls_elem _ _ _ _ Hi Ho') as (o & Ho & Hc & _).
  unfold obj_isinstance. rewrite Hc. by apply Hno.
Qed.

Lemma reloc_fails_from (W : World) (n : nat) :
  forall i self e,
    (forall o, o ∈ all_objects self -> obj_isinstance W o IdaBin = false) ->
    perform_reloc_from W n i self = Raise e ->
    exists o r l, o ∈ all_objects self /\ r ∈ relocs o /\ relocate W r l = Raise e.
Proof.
  induction n as [|n IH]; intros i self e Hno; simpl; [discriminate|].
  destruct (all_objects self !! i) as [obj|] eqn:Hi; [|discriminate].
  assert (Hobj : obj ∈ all_objects self) by (apply list_elem_of_lookup; eauto).
  destruct (reloc_object W self i obj) as [s1|e1] eqn:Hro; simpl.
  - intros Hrest. apply reloc_object_frame in Hro as (_ & _ & Ha).
    destruct (IH (S i) s1 e) as (o' & r & l & Ho' & Hr & He); [|done|].
    + intros o' Ho'. rewrite Ha in Ho'.
      destruct (insert_tls_elem _ _ _ _ Hi Ho') as (o & Ho & Hc & _).
      unfold obj_isinstance. rewrite Hc. by apply Hno.
    + rewrite Ha in Ho'.
      destruct (insert_tls_elem _ _ _ _ Hi Ho') as (o & Ho & _ & Hrl).
      exists o, r, l. split; [done|]. split; [by rewrite <- Hrl | done].
  - intros [= <-]. unfold reloc_object in Hro.
    change (obj_isinstance W (set_tls_module_id obj i) IdaBin)
      with (obj_isinstance W obj IdaBin) in Hro.
    rewrite (Hno obj Hobj) in Hro.
    destruct (obj_isinstance W (set_tls_module_id obj i) Pe); [discriminate|].
    destruct (obj_isinstance W (set_tls_module_id obj i) MetaELF); [|discriminate].
    apply for_each_relocate_raise in Hro as (r & Hr & He).
    exists obj, r. eexists. split; [done|]. split; [exact Hr | exact He].
Qed.



(** X13.  For a loader without shared objects, [_resolve_imports_ida]
    hands to [update_addrs], in the order of the imports, exactly the
    imports whose name the image exports itself, each with the address of
    that export; the other imports are left unresolved and nothing else
    of the loader changes. *)
Theorem ida_imports_bound_to_own_exports (self : Ld) (i : nat) (b : Obj)
    (Hempty : shared_objects self = ∅) :
  _resolve_imports_ida self i b =
  OK (set_ida_updates self
        (ida_updates self ++
         omap (fun imp : string * Z =>
                 (fun newaddr => (i, imp.2, newaddr)) <$> exports b !! imp.1)
              (imports b))).
Proof.
  unfold _resolve_imports_ida. rewrite all_so_exports_empty by done. simpl.
  rewrite fold_import_updates. do 3 f_equal.
  apply omap_pointwise. intros imp. unfold resolve_import. rewrite lookup_empty.
  by destruct (exports b !! imp.1).
Qed.

Lemma ida_imports_bound_to_own_exports_witness :
  _resolve_imports_ida after_main_lone 0 lone_ida =
  OK (set_ida_updates after_main_lone
        (ida_updates after_main_lone ++
         omap (fun imp : string * Z =>
                 (fun newaddr => (0%nat, imp.2, newaddr)) <$> exports lone_ida !! imp.1)
              (imports lone_ida))).
Proof.
  apply (ida_imports_bound_to_own_exports after_main_lone 0 lone_ida). reflexivity.
Defined.

(** X14.  [_so_name_from_symbol] returns [None] for a loader without
    shared objects and raises [AttributeError] for every other loader,
    whatever the symbol: its loop reads [exports] off the keys of
    [shared_objects]. *)
Theorem so_name_from_symbol_raises (self : Ld) (symb : string) :
  (shared_objects self = ∅ -> _so_name_from_symbol self symb = OK None) /\
  (shared_objects self <> ∅ -> _so_name_from_symbol self symb = Raise AttributeError).
Proof.
  unfold _so_name_from_symbol. split.
  - intros ->. by rewrite map_to_list_empty.
  - intros Hne.
    destruct (map_to_list (shared_objects self)) as [|[k v] l] eqn:Hl.
    + by apply map_to_list_empty_iff in Hl.
    + simpl. by destruct k.
Qed.

Lemma ida_sync_only_memory (W : World) (l : list Obj) (self self' : Ld) :
  for_each
    (fun self o =>
       match memory self with
       | None => Raise AttributeError
       | Some m =>
           m' ← update_backer m (rebase_addr o) (obj_memory o);
           OK (set_memory self (Some m'))
       end) l self = OK self' ->
  self' = set_memory self (memory self').
Proof.
  revert self. induction l as [|o l IH]; intros self; simpl.
  - intros [= <-]. by rewrite set_memory_id.
  - destruct (memory self) as [m|]; simpl; [|discriminate].
    destruct (update_backer m (rebase_addr o) (obj_memory o)) as [m'|e]; simpl; [|discriminate].
    intros H. apply IH in H. rewrite H at 1. reflexivity.
Qed.

(** X16.  [ida_sync_mem] concerns the [IdaBin] images only: for a loader
    without any it returns the loader unchanged, and whenever it returns
    it has changed nothing but the memory map. *)
Theorem ida_sync_mem_scope (W : World) (self : Ld) :
  ((forall o, o ∈ all_objects self -> obj_isinstance W o IdaBin = false) ->
   ida_sync_mem W self = OK self) /\
  (forall self', ida_sync_mem W self = OK self' -> self' = set_memory self (memory self')).
Proof.
  split.
  - intros Hno. unfold ida_sync_mem.
    assert (E : filter (fun i => obj_isinstance W i IdaBin = true) (all_objects self) = []).
    { induction (all_objects self) as [|o l IH]; [done|].
      rewrite filter_cons_False.
      - apply IH. intros o' Ho'. apply Hno. by right.
      - rewrite (Hno o) by (by left). discriminate. }
    by rewrite E.
  - intros self' H. by apply (ida_sync_only_memory W) in H.
Qed.


(** ** What the path search returns *)

Section ResolveSound.

Variable W : World.
Variable cfg : Config.
Variable main_arch : Arch.

Lemma scan_listing_found (libdir path : string) (listing : list string) (p : string) :
  (scan_listing W main_arch libdir path listing).2 = Some p ->
  exists c, c ∈ listing /\ fuzzy_strip c = fuzzy_strip path /\
            _check_lib W main_arch (PyStr.join libdir c) = true /\
            p = realpath W (PyStr.join libdir c).
Proof.
  induction listing as [|libname listing IH]; simpl; [discriminate|].
  destruct (String.eqb (fuzzy_strip libname) (fuzzy_strip path)) eqn:Heq.
  - apply String.eqb_eq in Heq.
    destruct (_check_lib W main_arch (PyStr.join libdir libname)) eqn:Hchk; simpl.
    + intros [= <-]. exists libname. repeat split; [by left|done..].
    + intros H. destruct (IH H) as (c & Hc & Hrest). exists c. split; [by right|done].
  - intros H. destruct (IH H) as (c & Hc & Hrest). exists c. split; [by right|done].
Qed.

Lemma search_dirs_found (path : string) (dirs : list string) (p : string) :
  (search_dirs W cfg main_arch path dirs).2 = Some p ->
  exists d c, d ∈ dirs /\
    _check_lib W main_arch (PyStr.join d c) = true /\
    p = realpath W (PyStr.join d c) /\
    (c = path \/
     (ignore_import_version_numbers cfg = true /\
      c ∈ default [] (listdir W d) /\ fuzzy_strip c = fuzzy_strip path)).
Proof.
  induction dirs as [|libdir dirs IH]; simpl; [discriminate|].
  destruct (_check_lib W main_arch (PyStr.join libdir path)) eqn:Hchk; simpl.
  { intros [= <-]. exists libdir, path. repeat split; [by left|done|by left]. }
  destruct (ignore_import_version_numbers cfg) eqn:Hfz.
  - destruct ((scan_listing W main_arch libdir path (default [] (listdir W libdir))).2)
      as [found|] eqn:Hscan; simpl.
    + intros [= <-]. apply scan_listing_found in Hscan as (c & Hc & Hs & Hk & Hp).
      exists libdir, c. repeat split; [by left|done..|]. right. done.
    + intros H. destruct (IH H) as (d & c & Hd & Hrest).
      exists d, c. split; [by right|done].
  - simpl. intros H. destruct (IH H) as (d & c & Hd & Hrest).
    exists d, c. split; [by right|done].
Qed.

Lemma search_dirs_no_listdir (path : string) (dirs : list string) (d : string) :
  ignore_import_version_numbers cfg = false ->
  EvListdir d ∉ (search_dirs W cfg main_arch path dirs).1.
Proof.
  intros Hfz. induction dirs as [|libdir dirs IH]; simpl.
  - apply not_elem_of_nil.
  - destruct (_check_lib W main_arch (PyStr.join libdir path)); simpl.
    + intros Hin. apply list_elem_of_singleton in Hin. discriminate.
    + rewrite Hfz. simpl. intros Hin. apply elem_of_cons in Hin as [Hin|Hin];
        [discriminate | by apply IH].
Qed.

End ResolveSound.

(** X15.  Every path [_resolve_path] returns was accepted by
    [_check_lib].  For a name with a path separator it is the name as
    given (not its real path) and the name is the only thing probed; for
    any other name it is the real path of [os.path.join(d, c)], where [d]
    is a directory of the search list and [c] is the name itself or, with
    fuzzy matching on, an entry of the listing of [d] that strips to the
    same string as the name.  With fuzzy matching off no directory is
    ever listed. *)
Theorem resolve_path_sound (W : World) (cfg : Config) (self : Ld) (path : string)
    (r : list FsEvent * option string)
    (Hr : _resolve_path W cfg self path = OK r) :
  exists mb,
    the_main_bin self = OK mb /\
    (PyStr.has_sep path = true ->
     r.1 = [EvCheckLib path] /\
     r.2 = (if _check_lib W (arch mb) path then Some path else None)) /\
    (PyStr.has_sep path = false ->
     forall p, r.2 = Some p ->
       exists d c,
         d ∈ search_list W cfg (arch mb) /\
         _check_lib W (arch mb) (PyStr.join d c) = true /\
         p = realpath W (PyStr.join d c) /\
         (c = path \/
          (ignore_import_version_numbers cfg = true /\
           c ∈ default [] (listdir W d) /\ fuzzy_strip c = fuzzy_strip path))) /\
    (ignore_import_version_numbers cfg = false -> forall d, EvListdir d ∉ r.1).
Proof.
  rewrite resolve_path_from in Hr.
  destruct (the_main_bin self) as [mb|e]; simpl in Hr; [|discriminate].
  injection Hr as <-. exists mb. split; [done|]. unfold resolve_from.
  split; [|split].
  - intros ->. by destruct (_check_lib W (arch mb) path).
  - intros ->. intros p Hp. by apply search_dirs_found in Hp.
  - intros Hfz d. destruct (PyStr.has_sep path).
    + destruct (_check_lib W (arch mb) path); simpl;
        intros Hin; apply list_elem_of_singleton in Hin; discriminate.
    + by apply search_dirs_no_listdir.
Qed.

Lemma resolve_path_sound_witness :
  exists mb, the_main_bin after_main_libc = OK mb /\
    forall p, resolved_libc.2 = Some p ->
      exists d c, d ∈ search_list world_libc config_libc (arch mb) /\
                  _check_lib world_libc (arch mb) (PyStr.join d c) = true /\
                  p = realpath world_libc (PyStr.join d c) /\
                  (c = "libc.so.6" \/
                   (ignore_import_version_numbers config_libc = true /\
                    c ∈ default [] (listdir world_libc d) /\
                    fuzzy_strip c = fuzzy_strip "libc.so.6")).
Proof.
  destruct (resolve_path_sound world_libc config_libc after_main_libc "libc.so.6"
              resolved_libc) as (mb & Hmb & _ & Hfound & _).
  - vm_compute. reflexivity.
  - exists mb. split; [exact Hmb|]. exact (Hfound eq_refl).
Defined.

(** ** The search functions *)

Lemma first_hit_spec {A B : Type} (f : A -> option B) (l : list A) (b : B) :
  first_hit f l = Some b <->
  exists i x, l !! i = Some x /\ f x = Some b /\
              forall j y, (j < i)%nat -> l !! j = Some y -> f y = None.
Proof.
  induction l as [|a l IH]; simpl.
  - split; [discriminate|]. intros (i & x & H & _). by rewrite lookup_nil in H.
  - destruct (f a) as [b'|] eqn:Ha.
    + split.
      * intros [= ->]. exists 0%nat, a. repeat split; [done|]. intros j y Hj. lia.
      * intros (i & x & Hi & Hx & Hlt). destruct i as [|i].
        -- simpl in Hi. congruence.
        -- specialize (Hlt 0%nat a ltac:(lia) eq_refl). congruence.
    + rewrite IH. split.
      * intros (i & x & Hi & Hx & Hlt). exists (S i), x. repeat split; [done..|].
        intros [|j] y Hj Hy; simpl in Hy; [congruence|]. apply (Hlt j); [lia|done].
      * intros (i & x & Hi & Hx & Hlt). destruct i as [|i].
        { simpl in Hi. congruence. }
        exists i, x. repeat split; [done..|].
        intros j y Hj Hy. apply (Hlt (S j)); [lia|done].
Qed.

Lemma first_hit_none {A B : Type} (f : A -> option B) (l : list A) :
  first_hit f l = None <-> forall x, x ∈ l -> f x = None.
Proof.
  induction l as [|a l IH]; simpl.
  - split; [|done]. intros _ x Hx. by apply elem_of_nil in Hx.
  - destruct (f a) as [b|] eqn:Ha.
    + split; [discriminate|]. intros H. specialize (H a ltac:(left)). congruence.
    + rewrite IH. split.
      * intros H x Hx. apply elem_of_cons in Hx as [->|Hx]; auto.
      * intros H x Hx. apply H. by right.
Qed.

(** X17.  [find_symbol_name] answers with the symbol of the first image
    in load order that has one at [addr - rebase_addr], and with [None]
    when no image has: a symbol at offset [off] of an image is found at
    [rebase_addr + off] unless an image loaded earlier has a symbol at
    that same absolute address, which then shadows it. *)
Theorem find_symbol_name_rebased (symbols_by_addr : Obj -> gmap Z string)
    (self : Ld) (addr : Z) :
  (forall name,
      find_symbol_name symbols_by_addr self addr = Some name <->
      exists i so, all_objects self !! i = Some so /\
        symbols_by_addr so !! (addr - rebase_addr so) = Some name /\
        forall j o, (j < i)%nat -> all_objects self !! j = Some o ->
                    symbols_by_addr o !! (addr - rebase_addr o) = None) /\
  (find_symbol_name symbols_by_addr self addr = None <->
   forall o, o ∈ all_objects self -> symbols_by_addr o !! (addr - rebase_addr o) = None) /\
  (forall i so off name,
      addr = rebase_addr so + off ->
      all_objects self !! i = Some so ->
      symbols_by_addr so !! off = Some name ->
      (forall j o, (j < i)%nat -> all_objects self !! j = Some o ->
                   symbols_by_addr o !! (addr - rebase_addr o) = None) ->
      find_symbol_name symbols_by_addr self addr = Some name).
Proof.
  unfold find_symbol_name. split; [|split].
  - intros name. apply first_hit_spec.
  - apply first_hit_none.
  - intros i so off name -> Hi Hs Hlt. apply first_hit_spec.
    exists i, so. split; [done|]. split; [|done].
    by replace (rebase_addr so + off - rebase_addr so) with off by lia.
Qed.

(** X18.  When [contains_addr] of every loaded image agrees with the
    memory of the image, [find_module_name] names the image that
    [addr_belongs_to_object] returns: the basename of its file, and
    [None] for an address that is not mapped. *)
Theorem find_module_name_of_owner (contains_addr : Obj -> Z -> bool) (self : Ld) (addr : Z)
    (Hagree : forall o off, o ∈ all_objects self ->
                contains_addr o off = mem_contains (obj_memory o) off) :
  find_module_name contains_addr self addr =
  (fun o => PyStr.basename (binary o)) <$> addr_belongs_to_object self addr.
Proof.
  unfold find_module_name, addr_belongs_to_object.
  induction (all_objects self) as [|o l IH]; simpl; [done|].
  rewrite (Hagree o) by (by left).
  destruct (mem_contains (obj_memory o) (addr - rebase_addr o)); simpl; [done|].
  apply IH. intros o' off Ho'. apply Hagree. by right.
Qed.

Lemma find_module_name_of_owner_witness :
  find_module_name (fun o off => mem_contains (obj_memory o) off) loaded_libc 260 =
  (fun o => PyStr.basename (binary o)) <$> addr_belongs_to_object loaded_libc 260.
Proof.
  apply (find_module_name_of_owner (fun o off => mem_contains (obj_memory o) off)
           loaded_libc 260).
  intros o off _. reflexivity.
Defined.

Lemma assoc_elem_of {A : Type} (k : string) (l : list (string * A)) (v : A) :
  assoc k l = Some v -> (k, v) ∈ l.
Proof.
  induction l as [|[k' v'] l IH]; simpl; [discriminate|].
  destruct (String.eqb k k') eqn:Hk.
  - apply String.eqb_eq in Hk as ->. intros [= ->]. by left.
  - intros H. right. by apply IH.
Qed.

(** X19.  For an [IdaBin] main binary and a loader without shared
    objects, the slot that [find_symbol_got_entry] returns for a symbol
    the binary exports itself is the slot that relocation hands to
    [update_addrs], with the address of that export; for a main binary
    that is neither an [IdaBin] nor an [ELF], [find_symbol_got_entry]
    returns [None] for every symbol. *)
Theorem got_entry_of_own_export (jmprel : Obj -> gmap string Z) (W : World) (self : Ld)
    (i : nat) (b : Obj) (symbol : string)
    (Hm : main_bin self = Some i)
    (Hb : all_objects self !! i = Some b) :
  (obj_isinstance W b IdaBin = true -> shared_objects self = ∅ ->
   forall ea a,
     find_symbol_got_entry jmprel W self symbol = Some ea ->
     exports b !! symbol = Some a ->
     exists self', _resolve_imports_ida self i b = OK self' /\
                   (i, ea, a) ∈ ida_updates self') /\
  (obj_isinstance W b IdaBin = false -> obj_isinstance W b ELF = false ->
   find_symbol_got_entry jmprel W self symbol = None).
Proof.
  unfold find_symbol_got_entry. rewrite Hm. simpl. rewrite Hb. split.
  - intros Hida Hempty ea a Hgot Hexp. rewrite Hida in Hgot.
    destruct (assoc symbol (imports b)) as [ea'|] eqn:Has; [|discriminate].
    injection Hgot as ->. apply assoc_elem_of in Has.
    unfold _resolve_imports_ida. rewrite all_so_exports_empty by done. simpl.
    eexists. split; [reflexivity|]. rewrite fold_import_updates. simpl.
    apply elem_of_app. right. apply list_elem_of_omap.
    exists (symbol, ea). split; [done|]. simpl.
    by rewrite (resolve_import_own b ∅ symbol a Hexp).
  - intros -> ->. done.
Qed.

Lemma got_entry_of_own_export_witness :
  exists self', _resolve_imports_ida after_main_lone 0 lone_ida_loaded = OK self' /\
                (0%nat, 8, 12) ∈ ida_updates self'.
Proof.
  refine (proj1 (got_entry_of_own_export (fun _ => ∅) world_lone after_main_lone 0
                   lone_ida_loaded "helper" _ _) _ _ 8 12 _ _);
    vm_compute; reflexivity.
Defined.

(** ** Loading the main binary *)

(** X20.  Where the main binary is put is decided by [main_opts] alone.
    For a main binary that is not an [IdaBin], whenever its backend
    returns it: without a ['custom_base_addr'] key it is stored at 0 and
    with an integer under the key at that integer, whatever the rebase
    granularity (zero included); with [None] stored under the key,
    [dict.get] hands [None] to [add_object], and the main binary is given
    the safe rebase address computed from its own range,
    [M + (G - M mod G)] with [M = get_max_addr + rebase_addr] of the
    image as parsed, or [ZeroDivisionError] when [G] is 0.  Wherever it
    is stored, it is the only image and [main_bin], and its declared
    dependencies are requested and, with [auto_load_libs], queued behind
    [force_load_libs]. *)
Theorem main_binary_placement (W : World) (cfg : Config) (mb : Obj)
    (Hload : load_object W (_main_binary_path W cfg) (_main_opts cfg) = OK mb)
    (Hkind : obj_isinstance W mb IdaBin = false) :
  match opt_custom_base_addr (_main_opts cfg) with
  | None => main_placed_at W cfg mb 0
  | Some (Some b) => main_placed_at W cfg mb b
  | Some None =>
      let M := get_max_addr mb + rebase_addr mb in
      let G := rebase_granularity cfg in
      if G =? 0 then _load_main_binary W cfg (initial cfg) = Raise ZeroDivisionError
      else main_placed_at W cfg mb (M + (G - M mod G))
  end.
Proof.
  assert (Hat : forall b s0,
            add_object W cfg
              (set_memory (set_main_bin (initial cfg) (Some 0%nat)) (Some {| backers := [] |}))
              mb (Some b) = OK s0 ->
            all_objects s0 = [set_rebase_addr mb b] /\
            main_bin s0 = Some 0%nat /\
            shared_objects s0 = ∅ /\
            requested_objects s0 = list_to_set (deps mb) /\
            _unsatisfied_deps s0 =
              (if auto_load_libs cfg then default [] (force_load_libs cfg) ++ deps mb
               else default [] (force_load_libs cfg))).
  { intros b s0. unfold add_object.
    destruct (auto_load_libs cfg), (provides mb), (ignore_import_version_numbers cfg);
      simpl; rewrite Hkind; simpl; intros [= <-]; simpl;
      repeat split; by rewrite (left_id_L ∅ (∪)). }
  assert (Hsome : forall b, exists s0,
            add_object W cfg
              (set_memory (set_main_bin (initial cfg) (Some 0%nat)) (Some {| backers := [] |}))
              mb (Some b) = OK s0).
  { intros b. unfold add_object.
    destruct (auto_load_libs cfg), (provides mb), (ignore_import_version_numbers cfg);
      simpl; rewrite Hkind; simpl; eauto. }
  assert (Hnone :
            add_object W cfg
              (set_memory (set_main_bin (initial cfg) (Some 0%nat)) (Some {| backers := [] |}))
              mb None =
            if rebase_granularity cfg =? 0 then Raise ZeroDivisionError
            else add_object W cfg
                   (set_memory (set_main_bin (initial cfg) (Some 0%nat))
                      (Some {| backers := [] |}))
                   mb (Some (get_max_addr mb + rebase_addr mb +
                             (rebase_granularity cfg -
                              (get_max_addr mb + rebase_addr mb) mod rebase_granularity cfg)))).
  { unfold add_object, _get_safe_rebase_addr, max_addr.
    destruct (rebase_granularity cfg =? 0);
      destruct (auto_load_libs cfg), (provides mb), (ignore_import_version_numbers cfg);
      reflexivity. }
  unfold main_placed_at, _load_main_binary. rewrite Hload.
  change (OK mb ≫= ?f) with (f mb). cbv beta zeta.
  change (List.length (all_objects (initial cfg))) with 0%nat.
  destruct (opt_custom_base_addr (_main_opts cfg)) as [[b|]|];
    change (default (Some 0) (Some ?x)) with x;
    change (default (Some 0) None) with (Some 0).
  - destruct (Hsome b) as [s0 Hs0]. exists s0. split; [done|]. by apply Hat.
  - rewrite Hnone. destruct (rebase_granularity cfg =? 0); [done|].
    destruct (Hsome (get_max_addr mb + rebase_addr mb +
                     (rebase_granularity cfg -
                      (get_max_addr mb + rebase_addr mb) mod rebase_granularity cfg)))
      as [s0 Hs0].
    exists s0. split; [done|]. by apply Hat.
  - destruct (Hsome 0) as [s0 Hs0]. exists s0. split; [done|]. by apply Hat.
Qed.

Lemma main_binary_placement_witness :
  main_placed_at world_libc config_none_base (set_cls main_elf ELF) 256.
Proof.
  refine (main_binary_placement world_libc config_none_base (set_cls main_elf ELF) _ _).
  - vm_compute. reflexivity.
  - reflexivity.
Defined.

(** X21.  The dependency loop only appends images: at every state the
    loop passes through, the main binary is still the first image of
    [all_objects] and [main_bin], exactly as [_load_main_binary] stored
    it (same base address), and the images loaded so far keep their
    positions and their contents in every later state of the loop. *)
Theorem main_binary_stays (W : World) (cfg : Config) (s0 self : Ld)
    (Hmain : _load_main_binary W cfg (initial cfg) = OK s0)
    (Hloop : loops_to W cfg s0 self) :
  exists m more,
    all_objects s0 = [m] /\
    all_objects self = m :: more /\
    main_bin self = Some 0%nat /\
    the_main_bin self = OK m /\
    forall self', loops_to W cfg self self' ->
      all_objects self `prefix_of` all_objects self'.
Proof.
  destruct (load_main_binary_inv W cfg s0 Hmain) as [Hi0 [m Ha0]].
  destruct (loops_to_main_bin W cfg s0 self Hloop) as [Hi [more Ha]].
  exists m, more. rewrite Ha0 in Ha. simpl in Ha.
  split; [done|]. split; [done|]. split; [by rewrite Hi|].
  split.
  - unfold the_main_bin. by rewrite Hi, Hi0, Ha.
  - intros self' Hl. destruct (loops_to_main_bin W cfg self self' Hl) as [_ [k Hk]].
    by exists k.
Qed.

Lemma main_binary_stays_witness :
  exists m more,
    all_objects after_main_libc = [m] /\ all_objects loaded_libc = m :: more.
Proof.
  destruct (main_binary_stays world_libc config_libc after_main_libc loaded_libc)
    as (m & more & H0 & H1 & _).
  - vm_compute. reflexivity.
  - apply (load_dependencies_loops world_libc config_libc 1). vm_compute. reflexivity.
  - exists m, more. split; [exact H0 | exact H1].
Defined.
